(** * movie-recommender: the recommendation pipeline of [server/server.js]

    A shallow embedding of the server's query-synthesis and
    result-refinement pipeline, and the properties its specification
    states about it.

    Conventions of the embedding.
    - A JavaScript string is a [string]; each [ascii] stands for one
      UTF-16 code unit below 256 (the Latin-1 range).  Inside that range
      white space, line terminators, case mapping and percent-encoding
      follow ECMAScript exactly; code units from 256 up are not
      representable.
    - JSON data is a [value]; a number is an integer of magnitude below
      10^21, which JavaScript prints in plain decimal (catalog ids,
      integer bounds; the instruction to the model asks for fractional
      bounds as strings).
    - An awaited remote call is a question asked to a [World]; the calls
      made so far are recorded in a trace, newest first, and the answer
      of the world may depend on that trace.
    - A function whose JavaScript body can raise returns an [option];
      [None] is the raised exception. *)

From Stdlib Require Import String Ascii List ZArith NArith Bool Lia.
From Stdlib Require Import DecimalString.
Import ListNotations.
Local Open Scope list_scope.
Local Open Scope string_scope.

(* ================================================================== *)
(** * Strings *)
(* ================================================================== *)

Module Str.

Definition code (c : ascii) : N := N_of_ascii c.

Definition LF : ascii := ascii_of_N 10.
Definition DQ : ascii := ascii_of_N 34.
Definition backtick : ascii := "`"%char.
Definition slash : ascii := "/"%char.

(** ECMAScript LineTerminator, below 256: LF and CR. *)
Definition is_line_terminator (c : ascii) : bool :=
  (code c =? 10)%N || (code c =? 13)%N.

(** ECMAScript WhiteSpace and LineTerminator, below 256: what [\s]
    matches and what [trim] removes. *)
Definition is_space (c : ascii) : bool :=
  (code c =? 9)%N || (code c =? 11)%N || (code c =? 12)%N ||
  (code c =? 32)%N || (code c =? 160)%N || is_line_terminator c.

Fixpoint all_space (s : string) : bool :=
  match s with
  | EmptyString => true
  | String c t => is_space c && all_space t
  end.

Definition is_empty (s : string) : bool :=
  match s with EmptyString => true | _ => false end.

(** [String.prototype.trimStart]. *)
Fixpoint trimStart (s : string) : string :=
  match s with
  | EmptyString => EmptyString
  | String c t => if is_space c then trimStart t else s
  end.

(** [String.prototype.trimEnd]. *)
Fixpoint trimEnd (s : string) : string :=
  match s with
  | EmptyString => EmptyString
  | String c t =>
      let t' := trimEnd t in
      if is_space c && is_empty t' then EmptyString else String c t'
  end.

(** [String.prototype.trim]. *)
Definition trim (s : string) : string := trimEnd (trimStart s).

(** [String.prototype.toLowerCase] on one code unit below 256. *)
Definition lower_char (c : ascii) : ascii :=
  let n := code c in
  if ((65 <=? n) && (n <=? 90))%N then ascii_of_N (n + 32)
  else if ((192 <=? n) && (n <=? 222) && negb (n =? 215))%N
       then ascii_of_N (n + 32)
  else c.

Fixpoint toLowerCase (s : string) : string :=
  match s with
  | EmptyString => EmptyString
  | String c t => String (lower_char c) (toLowerCase t)
  end.

(** [s.split(sep)] for a one-character separator. *)
Fixpoint split (sep : ascii) (s : string) : list string :=
  match s with
  | EmptyString => [EmptyString]
  | String c t =>
      if Ascii.eqb c sep then EmptyString :: split sep t
      else match split sep t with
           | [] => [String c EmptyString]
           | h :: r => String c h :: r
           end
  end.

(** Does [p] start [s]?  When it does, what follows it. *)
Fixpoint strip_prefix (p s : string) : option string :=
  match p with
  | EmptyString => Some s
  | String a p' =>
      match s with
      | EmptyString => None
      | String b s' => if Ascii.eqb a b then strip_prefix p' s' else None
      end
  end.

(** Does [p] occur in [s]? *)
Fixpoint occurs (p s : string) : bool :=
  match strip_prefix p s with
  | Some _ => true
  | None => match s with
            | EmptyString => false
            | String _ t => occurs p t
            end
  end.

(** ** [encodeURIComponent] *)

Definition is_unreserved (c : ascii) : bool :=
  let n := code c in
  ((65 <=? n) && (n <=? 90) || (97 <=? n) && (n <=? 122) ||
   (48 <=? n) && (n <=? 57) ||
   (n =? 45) || (n =? 95) || (n =? 46) || (n =? 33) || (n =? 126) ||
   (n =? 42) || (n =? 39) || (n =? 40) || (n =? 41))%N.

Definition hex_digit (n : N) : ascii :=
  if (n <? 10)%N then ascii_of_N (48 + n) else ascii_of_N (55 + n).

Definition percent (byte : N) : string :=
  String "%" (String (hex_digit (byte / 16)) (String (hex_digit (byte mod 16)) EmptyString)).

(** One code unit below 256 is one code point; its UTF-8 form has one
    byte below 128 and two bytes from 128 up.  On this range the
    function is total: its [URIError] needs a lone surrogate, a code
    unit from 0xD800 up. *)
Definition encode_char (c : ascii) : string :=
  let n := code c in
  if is_unreserved c then String c EmptyString
  else if (n <? 128)%N then percent n
  else percent (192 + n / 64) ++ percent (128 + n mod 64).

Fixpoint encodeURIComponent (s : string) : string :=
  match s with
  | EmptyString => EmptyString
  | String c t => encode_char c ++ encodeURIComponent t
  end.

(** Decimal form of an integer, as [Number.prototype.toString] prints it. *)
Definition of_Z (z : Z) : string := NilZero.string_of_int (Z.to_int z).

End Str.

(* ================================================================== *)
(** * [sanitizeAIResponse] *)
(* ================================================================== *)

Module Sanitize.
Import Str.

Definition fence_open : string := "```json".
Definition fence : string := "```".

(** [text.replace(/```json\s*/, '')]: the leftmost [```json] and the
    white space that follows it are removed; no match, no change. *)
Fixpoint replace_fence_open (s : string) : string :=
  match strip_prefix fence_open s with
  | Some rest => trimStart rest
  | None => match s with
            | EmptyString => EmptyString
            | String c t => String c (replace_fence_open t)
            end
  end.

(** [/```\s*$/] at the head of [s]: three backticks, then white space up
    to the end of the input (no [m] flag: [$] is the end of the text). *)
Definition closes_here (s : string) : bool :=
  match strip_prefix fence s with
  | Some rest => all_space rest
  | None => false
  end.

(** [.replace(/```\s*$/, '')]: the match is tried at every position
    from the left; where it succeeds the rest of the text goes. *)
Fixpoint replace_fence_close (s : string) : string :=
  match s with
  | EmptyString => EmptyString
  | String c t => if closes_here s then EmptyString
                  else String c (replace_fence_close t)
  end.

(** [.replace(/\/\/.*$/gm, '')]: from every [//] met outside a match,
    everything up to the line terminator (or the end) goes, the
    terminator stays.  [inside] tells whether the scan is within a match. *)
Fixpoint replace_comments_from (inside : bool) (s : string) : string :=
  match s with
  | EmptyString => EmptyString
  | String c t =>
      if inside then
        if is_line_terminator c then String c (replace_comments_from false t)
        else replace_comments_from true t
      else
        match strip_prefix "//" s with
        | Some _ => replace_comments_from true t
        | None => String c (replace_comments_from false t)
        end
  end.

Definition replace_comments (s : string) : string :=
  replace_comments_from false s.

Definition sanitizeAIResponse (text : string) : string :=
  let sanitized := trim (replace_fence_close (replace_fence_open text)) in
  trim (replace_comments sanitized).

End Sanitize.

(* ================================================================== *)
(** * JSON values and objects *)
(* ================================================================== *)

#[warning="-register-all"] Inductive value : Type :=
| VUndef
| VNull
| VBool (b : bool)
| VNum (n : Z)
| VStr (s : string)
| VArr (items : list value)
| VObj (fields : list (string * value)).

(** An object is its own properties in insertion order, one entry per
    key (the order [for ... in] and [Object.entries] follow for keys
    that are not array indices). *)
Definition obj : Type := list (string * value).

Module Js.
Import Str.

Definition truthy (v : value) : bool :=
  match v with
  | VUndef | VNull => false
  | VBool b => b
  | VNum n => negb (n =? 0)%Z
  | VStr s => negb (is_empty s)
  | VArr _ | VObj _ => true
  end.

Fixpoint obj_get (o : obj) (k : string) : option value :=
  match o with
  | [] => None
  | (k', v) :: r => if String.eqb k' k then Some v else obj_get r k
  end.

(** [o[k] = v]: an existing key keeps its place. *)
Fixpoint obj_set (o : obj) (k : string) (v : value) : obj :=
  match o with
  | [] => [(k, v)]
  | (k', v') :: r =>
      if String.eqb k' k then (k, v) :: r else (k', v') :: obj_set r k v
  end.

(** [delete o[k]]. *)
Fixpoint obj_delete (o : obj) (k : string) : obj :=
  match o with
  | [] => []
  | (k', v) :: r =>
      if String.eqb k' k then obj_delete r k else (k', v) :: obj_delete r k
  end.

Definition has_key (o : obj) (k : string) : bool :=
  match obj_get o k with Some _ => true | None => false end.

(** [o.k] read as a value: a missing property is [undefined]. *)
Definition own (o : obj) (k : string) : value :=
  match obj_get o k with Some v => v | None => VUndef end.

(** [v.k] for a property name [k] that is neither [length], an index,
    nor a member of a built-in prototype (the server reads [language],
    [results], [genres], [name], [id], [content], and the query fields):
    reading it from [null] or [undefined] raises, from an object gives
    the own property, from any other value gives [undefined]. *)
Definition field (v : value) (k : string) : option value :=
  match v with
  | VUndef | VNull => None
  | VObj o => Some (own o k)
  | _ => Some VUndef
  end.

(** [Array.prototype.join] over a printer [f] of the elements. *)
Definition join_with (f : value -> option string) (sep : string)
  : list value -> option string :=
  fix join (l : list value) : option string :=
    match l with
    | [] => Some EmptyString
    | x :: r =>
        match f x, r with
        | None, _ => None
        | Some e, [] => Some e
        | Some e, _ :: _ =>
            match join r with
            | Some rest => Some (e ++ sep ++ rest)
            | None => None
            end
        end
    end.

(** [ToString].  An array prints as its elements joined by commas,
    [null] and [undefined] among them as the empty string.  A JSON
    object prints as [[object Object]] through
    [Object.prototype.toString], unless it has an own [toString]
    property: that one is not callable, [valueOf] returns no primitive,
    and the conversion raises a [TypeError]. *)
Fixpoint to_string (v : value) : option string :=
  match v with
  | VUndef => Some "undefined"
  | VNull => Some "null"
  | VBool true => Some "true"
  | VBool false => Some "false"
  | VNum n => Some (of_Z n)
  | VStr s => Some s
  | VArr l =>
      join_with (fun x => match x with
                          | VUndef | VNull => Some EmptyString
                          | _ => to_string x
                          end) "," l
  | VObj o => if has_key o "toString" then None else Some "[object Object]"
  end.

(** An element inside [Array.prototype.join]. *)
Definition element_string (x : value) : option string :=
  match x with
  | VUndef | VNull => Some EmptyString
  | _ => to_string x
  end.

(** [l.join(sep)]; raises when an element does. *)
Definition join_values (sep : string) (l : list value) : option string :=
  join_with element_string sep l.

(** [SameValueZero], the equality of [Set].  Arrays and objects are
    compared by identity, and two values that were parsed apart are
    never the same object. *)
Definition same_value_zero (a b : value) : bool :=
  match a, b with
  | VUndef, VUndef => true
  | VNull, VNull => true
  | VBool x, VBool y => Bool.eqb x y
  | VNum x, VNum y => (x =? y)%Z
  | VStr x, VStr y => String.eqb x y
  | _, _ => false
  end.

Fixpoint set_add_all (seen : list value) (l : list value) : list value :=
  match l with
  | [] => seen
  | x :: r =>
      set_add_all (if existsb (same_value_zero x) seen then seen
                   else (seen ++ [x])%list) r
  end.

(** [[...new Set(l)]]: first occurrences, in order. *)
Definition new_Set (l : list value) : list value := set_add_all [] l.

(** The indexed properties of an array or of a string. *)
Fixpoint index_from (i : Z) (l : list value) : obj :=
  match l with
  | [] => []
  | x :: r => (of_Z i, x) :: index_from (i + 1) r
  end.

Fixpoint chars (s : string) : list value :=
  match s with
  | EmptyString => []
  | String c t => VStr (String c EmptyString) :: chars t
  end.

(** [{...v}]: the own enumerable properties of [v]. *)
Definition spread (v : value) : obj :=
  match v with
  | VObj o => o
  | VArr l => index_from 0 l
  | VStr s => index_from 0 (chars s)
  | _ => []
  end.

End Js.

(* ================================================================== *)
(** * The outside world and the trace of remote calls *)
(* ================================================================== *)

(** The classifier's answer: ["movie"], ["tv"] or ["none"]. *)
Inductive request_type : Type := Movie | Tv | NoType.

(** The four [openAi.chat.completions.create] call sites.  A request is
    determined by its call site (model, temperature, token bound and
    instruction text are fixed there) and by what the site interpolates
    into the instruction or passes as messages: the genre names with
    their ids printed and the date of the day for the query
    instruction; the user's message printed and, per result, the title,
    release date, overview, rating, vote count, id, popularity and
    media kind for the refinement instruction. *)
Inductive chat_request : Type :=
| ClassifyRequest (userMessage : value)
| QueryRequest (rt : request_type) (genreListing : list (string * string))
               (today : string) (userMessage : value)
| RefineRequest (rt : request_type) (originalUserMessage : string)
                (resultContext : list (list string))
| NormalRequest (messages : list value).

Inductive event : Type :=
| Chat (request : chat_request)
| Get (url : string).

Definition trace : Type := list event.

(** What the server does not compute itself.  [chat] is the content of
    the first choice of a completion, [None] when the call rejects or
    the content cannot be read and trimmed; [http_get] is [resp.data],
    [None] when [axios.get] rejects; both may depend on the calls made
    before.  [JSON_parse] is the built-in parser, [None] its
    [SyntaxError]; [number_positive s] is [Number(s) > 0]. *)
Record World : Type := {
  chat : trace -> chat_request -> option string;
  http_get : trace -> string -> option value;
  today : trace -> string;
  JSON_parse : string -> option value;
  number_positive : string -> bool;
  TMDB_API_KEY : string
}.

(** A computation that awaits remote calls: it reads the trace so far
    and extends it, newest call first. *)
Definition M (A : Type) : Type := trace -> A * trace.

Definition ret {A : Type} (a : A) : M A := fun h => (a, h).

Definition bind {A B : Type} (m : M A) (k : A -> M B) : M B :=
  fun h => let (a, h') := m h in k a h'.

Declare Scope await_scope.
Delimit Scope await_scope with await.
Notation "x <- m ;; k" := (bind m (fun x => k))
  (at level 61, m at next level, right associativity) : await_scope.
Local Open Scope await_scope.

(** The genre cache: the two module-level variables. *)
Record genres : Type := {
  movieGenreMap : obj;
  tvGenreMap : obj
}.

Inductive payload : Type :=
| ErrorBody (error : string)
| Recommendation (response : string) (tmdbData : value)
                 (queryParams : value) (requestType : request_type)
| Plain (response : string).

(** How a call of the [POST /api/respond] handler ends: with a
    response, or with its promise rejected by an exception raised
    before the [try]; what Express does with the rejection is not the
    handler's. *)
Inductive outcome : Type :=
| Response (status : Z) (body : payload)
| Unhandled.

(* ================================================================== *)
(** * The server *)
(* ================================================================== *)

Module Server.
Import Str Js Sanitize.

(** The object literal [mappings] of [fetchFromTMDB]. *)
Definition mappings : list (string * string) :=
  [ ("query", "query");
    ("with_genres", "with_genres");
    ("with_cast", "with_cast");
    ("with_crew", "with_crew");
    ("primary_release_date_gte", "primary_release_date.gte");
    ("primary_release_date_lte", "primary_release_date.lte");
    ("first_air_date_gte", "first_air_date.gte");
    ("first_air_date_lte", "first_air_date.lte");
    ("vote_average_gte", "vote_average.gte");
    ("vote_average_lte", "vote_average.lte");
    ("vote_count_gte", "vote_count.gte");
    ("sort_by", "sort_by");
    ("with_original_language", "with_original_language");
    ("year", "year");
    ("with_keywords", "with_keywords");
    ("with_runtime_gte", "with_runtime.gte");
    ("with_runtime_lte", "with_runtime.lte") ].

(** [mappings] is a plain object, so [mappings[key]] also finds what
    [Object.prototype] holds.  Each member is listed with the text
    [ToString] gives for it (V8's text for a built-in function; the
    [__proto__] accessor returns [Object.prototype] itself). *)
Definition object_prototype : list (string * string) :=
  [ ("constructor", "function Object() { [native code] }");
    ("__defineGetter__", "function __defineGetter__() { [native code] }");
    ("__defineSetter__", "function __defineSetter__() { [native code] }");
    ("hasOwnProperty", "function hasOwnProperty() { [native code] }");
    ("__lookupGetter__", "function __lookupGetter__() { [native code] }");
    ("__lookupSetter__", "function __lookupSetter__() { [native code] }");
    ("isPrototypeOf", "function isPrototypeOf() { [native code] }");
    ("propertyIsEnumerable", "function propertyIsEnumerable() { [native code] }");
    ("toString", "function toString() { [native code] }");
    ("valueOf", "function valueOf() { [native code] }");
    ("__proto__", "[object Object]");
    ("toLocaleString", "function toLocaleString() { [native code] }") ].

Fixpoint assoc (l : list (string * string)) (k : string) : option string :=
  match l with
  | [] => None
  | (k', v) :: r => if String.eqb k' k then Some v else assoc r k
  end.

(** [mappings[key]]: [None] when the lookup gives [undefined]; every
    value found is truthy, and is returned as the text that the
    template literal prints for it. *)
Definition mappings_lookup (key : string) : option string :=
  match assoc mappings key with
  | Some t => Some t
  | None => assoc object_prototype key
  end.

(** The parameters that the loop [for (const key in queryParams)]
    appends: source field, catalog parameter name, value. *)
Fixpoint recognized (o : obj) : list (string * string * value) :=
  match o with
  | [] => []
  | (k, v) :: r =>
      match mappings_lookup k with
      | Some t => if truthy v then (k, t, v) :: recognized r
                  else recognized r
      | None => recognized r
      end
  end.

(** [baseUrl += `&${tmdbKey}=${encodeURIComponent(queryParams[key])}`]. *)
Fixpoint append_params (url : string) (ps : list (string * string * value))
  : option string :=
  match ps with
  | [] => Some url
  | (_, t, v) :: r =>
      match to_string v with
      | Some s => append_params (url ++ "&" ++ t ++ "=" ++ encodeURIComponent s) r
      | None => None
      end
  end.

Definition endpoint (rt : request_type) : string :=
  match rt with Movie => "discover/movie" | _ => "discover/tv" end.

Definition media_type (rt : request_type) : string :=
  match rt with Movie => "movie" | _ => "tv" end.

(** [queryParams.language || "en-US"]. *)
Definition language_of (o : obj) : value :=
  let l := own o "language" in
  if truthy l then l else VStr "en-US".

(** The fields a query value offers to property reads and to
    [for ... in]: those of an object; a number, a boolean, a string or
    an array has none of the names the server reads or recognizes. *)
Definition fields_of (q : value) : obj :=
  match q with VObj o => o | _ => [] end.

(** [results[0].id]. *)
Definition id_of (x : value) : option value := field x "id".

Definition no_matches (rt : request_type) : string :=
  "I couldn't find any " ++
  match rt with Movie => "movies" | _ => "TV shows" end ++
  " matching your criteria. Please try a different request.".

Definition refine_apology : string :=
  "Sorry, I had trouble analyzing the results.".

Definition normal_apology : string :=
  "Sorry, I couldn't process your request at the moment.".

(** [item.title || item.name] and the like. *)
Definition or_else (a b : value) : value := if truthy a then a else b.

(** The interpolations of one [Result i] block of the refinement
    instruction; raises when [item] is [null] or a value cannot be
    printed. *)
Definition render_item (rt : request_type) (item : value)
  : option (list string) :=
  match field item "title", field item "name",
        field item "release_date", field item "first_air_date",
        field item "overview", field item "vote_average",
        field item "vote_count", field item "id",
        field item "popularity" with
  | Some title, Some name, Some rel, Some air, Some ov, Some va, Some vc,
    Some id, Some pop =>
      match to_string (or_else title name),
            to_string (or_else (or_else rel air) (VStr "N/A")),
            to_string ov, to_string va, to_string vc, to_string id,
            to_string pop with
      | Some a, Some b, Some c, Some d, Some e, Some f, Some g =>
          Some [a; b; c; d; e; f; g; media_type rt]
      | _, _, _, _, _, _, _ => None
      end
  | _, _, _, _, _, _, _, _, _ => None
  end.

Fixpoint render_items (rt : request_type) (l : list value)
  : option (list (list string)) :=
  match l with
  | [] => Some []
  | x :: r =>
      match render_item rt x, render_items rt r with
      | Some a, Some b => Some (a :: b)
      | _, _ => None
      end
  end.

(** [Object.entries(selectedGenreMap)] with each id printed. *)
Fixpoint genre_listing (m : obj) : option (list (string * string)) :=
  match m with
  | [] => Some []
  | (name, id) :: r =>
      match to_string id, genre_listing r with
      | Some i, Some l => Some ((name, i) :: l)
      | _, _ => None
      end
  end.

(** What [map["__proto__"] = id] does to a [map] that still reaches the
    accessor [__proto__] of [Object.prototype]: the setter installs an
    object or [null] as the prototype of [map], ignores every other
    value, and adds no own property.  Is the accessor still reached
    afterwards?  Not under a [null] prototype, and not under a parsed
    object that has an own property [__proto__] ([JSON.parse] defines
    it as a data property); any other parsed object or array inherits
    the accessor. *)
Definition keeps_accessor (id : value) : bool :=
  match id with
  | VNull => false
  | VObj p => negb (has_key p "__proto__")
  | _ => true
  end.

(** One step of the [reduce] of [fetchGenresFromTMDB]:
    [map[genre.name.toLowerCase()] = genre.id], on the accumulator and
    the flag [inherits] (is the accessor [__proto__] reached from it?).
    While it is, assigning to [__proto__] goes to the accessor; once it
    is not, the assignment creates an own property like any other
    key's. *)
Definition genre_entry (inherits : bool) (map : obj) (genre : value)
  : option (bool * obj) :=
  match genre with
  | VObj g =>
      match own g "name" with
      | VStr name =>
          let key := toLowerCase name in
          if String.eqb key "__proto__" && inherits
          then Some (keeps_accessor (own g "id"), map)
          else Some (inherits, obj_set map key (own g "id"))
      | _ => None
      end
  | _ => None
  end.

Fixpoint reduce_genres (inherits : bool) (map : obj) (l : list value)
  : option obj :=
  match l with
  | [] => Some map
  | genre :: r =>
      match genre_entry inherits map genre with
      | Some (inherits', map') => reduce_genres inherits' map' r
      | None => None
      end
  end.

(** [response.data.genres.reduce(..., {})]: the accumulator starts as
    an empty object literal, whose prototype is [Object.prototype]. *)
Definition genre_map_of (data : value) : option obj :=
  match field data "genres" with
  | Some (VArr l) => reduce_genres true [] l
  | _ => None
  end.

(** [{...result, media_type}]. *)
Definition stamp (rt : request_type) (result : value) : value :=
  VObj (obj_set (spread result) "media_type" (VStr (media_type rt))).

Section WithWorld.

Variable W : World.

Definition ask_chat (r : chat_request) : M (option string) :=
  fun h => (chat W h r, Chat r :: h).

Definition ask_get (url : string) : M (option value) :=
  fun h => (http_get W h url, Get url :: h).

Definition ask_today : M string := fun h => (today W h, h).

(** ** Genre cache *)

Definition genre_url (kind : string) : string :=
  "https://api.themoviedb.org/3/genre/" ++ kind ++ "/list?api_key=" ++
  TMDB_API_KEY W ++ "&language=en-US".

(** [fetchGenresFromTMDB]: each assignment happens as soon as its own
    response has been reduced; the [catch] only logs. *)
Definition fetchGenresFromTMDB (g : genres) : M genres :=
  movieGenreResponse <- ask_get (genre_url "movie") ;;
  match movieGenreResponse with
  | None => ret g
  | Some data =>
      match genre_map_of data with
      | None => ret g
      | Some movieMap =>
          let g1 := {| movieGenreMap := movieMap;
                       tvGenreMap := tvGenreMap g |} in
          tvGenreResponse <- ask_get (genre_url "tv") ;;
          match tvGenreResponse with
          | None => ret g1
          | Some data' =>
              match genre_map_of data' with
              | None => ret g1
              | Some tvMap =>
                  ret {| movieGenreMap := movieMap; tvGenreMap := tvMap |}
              end
          end
      end
  end.

(** ** 1) [classifyRequest] *)

Definition label_of (content : string) : request_type :=
  let classification := toLowerCase (trim content) in
  if String.eqb classification "movie" then Movie
  else if String.eqb classification "tv" then Tv
  else NoType.

Definition classifyRequest (userMessage : value) : M request_type :=
  response <- ask_chat (ClassifyRequest userMessage) ;;
  match response with
  | Some content => ret (label_of content)
  | None => ret NoType
  end.

(** ** 2) [generateTMDBQuery] *)

Definition generateTMDBQuery (g : genres) (userMessage : value)
                             (rt : request_type) : M value :=
  let selectedGenreMap :=
    match rt with Movie => movieGenreMap g | _ => tvGenreMap g end in
  match genre_listing selectedGenreMap with
  | None => ret (VObj [])
  | Some listing =>
      day <- ask_today ;;
      response <- ask_chat (QueryRequest rt listing day userMessage) ;;
      match response with
      | None => ret (VObj [])
      | Some content =>
          let rawAnswer := trim content in
          let sanitizedAnswer := sanitizeAIResponse rawAnswer in
          match JSON_parse W sanitizedAnswer with
          | Some queryParams => ret queryParams
          | None => ret (VObj [])
          end
      end
  end.

(** ** 2.1, 2.2) name resolution *)

(** [x > 0] for a value read as a [length]; [false] also stands for a
    length that cannot be converted (the [TypeError] is caught). *)
Definition positive (x : value) : bool :=
  match x with
  | VNum n => (0 <? n)%Z
  | VBool b => b
  | VStr s => number_positive W s
  | VArr _ => match to_string x with
              | Some s => number_positive W s
              | None => false
              end
  | _ => false
  end.

(** What one search response adds to [ids]:
    [resp.data.results || []], then [results[0].id] when
    [results.length > 0]; a [TypeError] on the way is caught and adds
    nothing. *)
Definition first_result_id (data : value) : option value :=
  match field data "results" with
  | None => None
  | Some r =>
      match (if truthy r then r else VArr []) with
      | VArr (x :: _) => id_of x
      | VStr (String c _) => id_of (VStr (String c EmptyString))
      | VObj o =>
          if positive (own o "length") then id_of (own o "0") else None
      | _ => None
      end
  end.

Definition person_url (name language : string) : string :=
  "https://api.themoviedb.org/3/search/person?api_key=" ++ TMDB_API_KEY W ++
  "&query=" ++ encodeURIComponent name ++ "&language=" ++ language ++
  "&include_adult=false".

Definition keyword_url (name : string) : string :=
  "https://api.themoviedb.org/3/search/keyword?api_key=" ++ TMDB_API_KEY W ++
  "&query=" ++ encodeURIComponent name ++ "&page=1".

Definition pushed (resp : option value) : list value :=
  match resp with
  | Some data => match first_result_id data with
                 | Some id => [id]
                 | None => []
                 end
  | None => []
  end.

(** [fetchActorIdsByNames]: one search per name, in order; when the
    language cannot be printed into the address, building it raises
    inside the [try] and no search is made for that name. *)
Fixpoint fetchActorIdsByNames (names : list string) (language : value)
  : M (list value) :=
  match names with
  | [] => ret []
  | name :: rest =>
      match to_string language with
      | None => fetchActorIdsByNames rest language
      | Some l =>
          resp <- ask_get (person_url name l) ;;
          ids <- fetchActorIdsByNames rest language ;;
          ret (pushed resp ++ ids)%list
      end
  end.

(** [fetchKeywordIdsByNames]. *)
Fixpoint fetchKeywordIdsByNames (names : list string) : M (list value) :=
  match names with
  | [] => ret []
  | kName :: rest =>
      resp <- ask_get (keyword_url kName) ;;
      ids <- fetchKeywordIdsByNames rest ;;
      ret (pushed resp ++ ids)%list
  end.

(** ** 3) [fetchFromTMDB] *)

(** 3a) [with_cast_names]: a truthy value that is not a string has no
    [split], and the call raises. *)
Definition resolve_cast (o : obj) : M (option obj) :=
  let languageParam := language_of o in
  let names := own o "with_cast_names" in
  if truthy names then
    match names with
    | VStr s =>
        let namesArr := map trim (split "," s) in
        actorIds <- fetchActorIdsByNames namesArr languageParam ;;
        match actorIds with
        | [] => ret (Some (obj_delete o "with_cast_names"))
        | _ :: _ =>
            match join_values "," actorIds with
            | Some joined =>
                ret (Some (obj_delete (obj_set o "with_cast" (VStr joined))
                                      "with_cast_names"))
            | None => ret None
            end
        end
    | _ => ret None
    end
  else ret (Some o).

(** The merge of 3b): [[...new Set([...existing, ...keywordIds])].join("|")]. *)
Definition merge_keywords (with_keywords : string) (keywordIds : list value)
  : option string :=
  let existing := map trim (split "|" with_keywords) in
  join_values "|" (new_Set (map VStr existing ++ keywordIds)%list).

(** 3b) [with_keywords_names]. *)
Definition resolve_keywords (o : obj) : M (option obj) :=
  let names := own o "with_keywords_names" in
  if truthy names then
    match names with
    | VStr s =>
        let kwNamesArr := map trim (split "," s) in
        keywordIds <- fetchKeywordIdsByNames kwNamesArr ;;
        match keywordIds with
        | [] => ret (Some (obj_delete o "with_keywords_names"))
        | _ :: _ =>
            let old := own o "with_keywords" in
            let combined :=
              if truthy old then
                match old with
                | VStr e => merge_keywords e keywordIds
                | _ => None
                end
              else join_values "|" keywordIds in
            match combined with
            | Some c =>
                ret (Some (obj_delete (obj_set o "with_keywords" (VStr c))
                                      "with_keywords_names"))
            | None => ret None
            end
        end
    | _ => ret None
    end
  else ret (Some o).

(** The address of the discovery request for the query as it stands
    after 3a and 3b. *)
Definition discover_url (rt : request_type) (o : obj) (languageParam : value)
  : option string :=
  match to_string languageParam with
  | Some l =>
      append_params
        ("https://api.themoviedb.org/3/" ++ endpoint rt ++ "?api_key=" ++
         TMDB_API_KEY W ++ "&language=" ++ l)
        (recognized o)
  | None => None
  end.

(** The [try] block around the discovery request. *)
Definition results_of (rt : request_type) (resp : option value) : value :=
  match resp with
  | None => VArr []
  | Some data =>
      match field data "results" with
      | None => VArr []
      | Some (VArr l) => VArr (map (stamp rt) l)
      | Some r => if truthy r then r else VArr []
      end
  end.

(** The query that the caller holds after the call: the same object,
    as the call left it. *)
Definition requery (q : value) (o : obj) : value :=
  match q with VObj _ => VObj o | _ => q end.

(** [fetchFromTMDB(queryParams, requestType)]: the results and the
    query object as mutated, or [None] when the call raises.  The
    default [{}] stands in for [undefined] only; [null] has no
    properties to read. *)
Definition fetchFromTMDB (queryParams : value) (rt : request_type)
  : M (option (value * value)) :=
  match queryParams with
  | VNull => ret None
  | _ =>
      let o := fields_of queryParams in
      let languageParam := language_of o in
      cast <- resolve_cast o ;;
      match cast with
      | None => ret None
      | Some o1 =>
          kw <- resolve_keywords o1 ;;
          match kw with
          | None => ret None
          | Some o2 =>
              match discover_url rt o2 languageParam with
              | None => ret None
              | Some baseUrl =>
                  resp <- ask_get baseUrl ;;
                  ret (Some (results_of rt resp, requery queryParams o2))
              end
          end
      end
  end.

(** ** 4) [refineResultsWithAI] *)

Definition refine_call (originalUserMessage : value) (l : list value)
                       (rt : request_type) : M string :=
  match render_items rt (firstn 5 l), to_string originalUserMessage with
  | Some context, Some msg =>
      response <- ask_chat (RefineRequest rt msg context) ;;
      match response with
      | Some content => ret (trim content)
      | None => ret refine_apology
      end
  | _, _ => ret refine_apology
  end.

Definition refineResultsWithAI (originalUserMessage tmdbResults : value)
                               (rt : request_type) : M string :=
  match tmdbResults with
  | VArr [] => ret (no_matches rt)
  | VArr l => refine_call originalUserMessage l rt
  | VStr EmptyString => ret (no_matches rt)
  | VObj o =>
      match own o "length" with
      | VNum 0 => ret (no_matches rt)
      | _ => ret refine_apology
      end
  | _ => ret refine_apology
  end.

(** ** 5) [generateNormalResponse] *)

Definition generateNormalResponse (messages : list value) : M string :=
  response <- ask_chat (NormalRequest messages) ;;
  match response with
  | Some content => ret (trim content)
  | None => ret normal_apology
  end.

(** ** [POST /api/respond] *)

(** [messages[messages.length - 1].content]. *)
Definition last_content (messages : list value) : option value :=
  field (last messages VUndef) "content".

(** The handler, for a body whose [messages] is absent ([None]) or a
    JSON array. *)
Definition respond (g : genres) (messages : option (list value)) : M outcome :=
  match messages with
  | None | Some [] => ret (Response 400 (ErrorBody "No messages provided"))
  | Some l =>
      match last_content l with
      | None => ret Unhandled
      | Some userMessage =>
          requestType <- classifyRequest userMessage ;;
          match requestType with
          | Movie | Tv =>
              queryParams <- generateTMDBQuery g userMessage requestType ;;
              fetched <- fetchFromTMDB queryParams requestType ;;
              match fetched with
              | None =>
                  ret (Response 500 (ErrorBody "Failed to complete the response."))
              | Some (tmdbResults, queryParams') =>
                  refinedAnswer <-
                    refineResultsWithAI userMessage tmdbResults requestType ;;
                  ret (Response 200
                         (Recommendation refinedAnswer tmdbResults
                                         queryParams' requestType))
              end
          | NoType =>
              normalResponse <- generateNormalResponse l ;;
              ret (Response 200 (Plain normalResponse))
          end
      end
  end.

End WithWorld.
End Server.

(* ================================================================== *)
(** * Worlds used in the examples *)
(* ================================================================== *)

Module Demo.
Import Server.

(** Every remote call fails. *)
Definition quiet : World :=
  {| chat := fun _ _ => None;
     http_get := fun _ _ => None;
     today := fun _ => "2024-05-01";
     JSON_parse := fun _ => None;
     number_positive := fun _ => false;
     TMDB_API_KEY := "KEY" |}.

(** The model answers [content] to every request; the catalog is down. *)
Definition answering (content : string) : World :=
  {| chat := fun _ _ => Some content;
     http_get := fun _ _ => None;
     today := fun _ => "2024-05-01";
     JSON_parse := fun _ => None;
     number_positive := fun _ => false;
     TMDB_API_KEY := "KEY" |}.

(** The catalog knows one keyword and one person. *)
Definition hit (id : Z) : value :=
  VObj [("results", VArr [VObj [("id", VNum id)]])].

Definition catalog : World :=
  {| chat := fun _ _ => None;
     http_get := fun _ url =>
       if String.eqb url (keyword_url quiet "heist") then Some (hit 123)
       else if String.eqb url (person_url quiet "Tom Hanks" "en-US")
            then Some (hit 31)
       else if String.eqb url (person_url quiet "Nobody" "en-US")
            then Some (VObj [("results", VArr [])])
       else None;
     today := fun _ => "2024-05-01";
     JSON_parse := fun _ => None;
     number_positive := fun _ => false;
     TMDB_API_KEY := "KEY" |}.

Definition cached : genres :=
  {| movieGenreMap := [("horror", VNum 27)];
     tvGenreMap := [("drama", VNum 18)] |}.

Definition genre_list (name : string) (id : Z) : value :=
  VObj [("genres", VArr [VObj [("id", VNum id); ("name", VStr name)]])].

(** The film taxonomy is served, the series taxonomy is not. *)
Definition half_catalog : World :=
  {| chat := fun _ _ => None;
     http_get := fun _ url =>
       if String.eqb url (genre_url quiet "movie")
       then Some (genre_list "Comedy" 35)
       else None;
     today := fun _ => "2024-05-01";
     JSON_parse := fun _ => None;
     number_positive := fun _ => false;
     TMDB_API_KEY := "KEY" |}.

End Demo.

(* ================================================================== *)
(** * Vocabulary of the properties *)
(* ================================================================== *)

Import Str Js Sanitize Server.

(** The parameter names that the catalog reads in an address: the
    query starts after the first [?], its parameters are separated by
    [&], and a name ends at the first [=].  This reads an address that
    holds no [#]; after a [#] the text would be fragment. *)
Definition param_name (p : string) : string :=
  match split "=" p with n :: _ => n | [] => EmptyString end.

Fixpoint query_of (url : string) : option string :=
  match url with
  | EmptyString => None
  | String c t => if Ascii.eqb c "?" then Some t else query_of t
  end.

Definition sent_names (url : string) : list string :=
  match query_of url with
  | Some q => map param_name (split "&" q)
  | None => []
  end.

(** The names the allow-list stands for, with the credential and the
    language. *)
Definition upstream_names : list string :=
  "api_key" :: "language" :: map snd mappings.

Definition urls (t : trace) : list string :=
  flat_map (fun e => match e with Get u => [u] | Chat _ => [] end) t.

(** The bare object [{}] of a failed synthesis. *)
Definition empty_query : value := VObj [].

Definition one_message (text : string) : list value :=
  [VObj [("role", VStr "user"); ("content", VStr text)]].

(** A conversation message is a JSON object. *)
Definition is_message (m : value) : Prop :=
  match m with VObj _ => True | _ => False end.

Definition status_of (r : outcome) : option Z :=
  match r with Response s _ => Some s | Unhandled => None end.

(** The model tells a long history from a short one. *)
Definition history_aware : World :=
  {| chat := fun _ r =>
       match r with
       | NormalRequest (_ :: _ :: _) => Some "as I said"
       | NormalRequest _ => Some "hello"
       | _ => Some "none"
       end;
     http_get := fun _ _ => None;
     today := fun _ => "2024-05-01";
     JSON_parse := fun _ => None;
     number_positive := fun _ => false;
     TMDB_API_KEY := "KEY" |}.

Definition reduced (resp : option value) : option obj :=
  match resp with
  | Some data => genre_map_of data
  | None => None
  end.

Fixpoint no_line_terminator (s : string) : bool :=
  match s with
  | EmptyString => true
  | String c t => negb (is_line_terminator c) && no_line_terminator t
  end.

(** A piece of text after which a comment can start: it holds no [//]
    and does not end in a slash. *)
Definition code_piece (c : string) : bool := negb (occurs "//" (c ++ "/")).

(** Lines [code // comment], then a last piece. *)
Fixpoint annotate (lines : list (string * string)) (last : string) : string :=
  match lines with
  | [] => last
  | (c, m) :: r => c ++ "//" ++ m ++ String LF (annotate r last)
  end.

(** The same text without its comments. *)
Fixpoint bare (lines : list (string * string)) (last : string) : string :=
  match lines with
  | [] => last
  | (c, _) :: r => c ++ String LF (bare r last)
  end.

Definition well_annotated (lines : list (string * string)) : bool :=
  forallb (fun l => code_piece (fst l) && no_line_terminator (snd l)) lines.

Definition quoted (s : string) : string := String DQ (s ++ String DQ EmptyString).

(** The text [{"query":"x"}]. *)
Definition json_query (x : string) : string :=
  "{" ++ quoted "query" ++ ":" ++ quoted x ++ "}".

(** The model answers [content]; the parser knows the one text
    [json_query "x"] and rejects everything else that is asked here. *)
Definition parsing (content : string) : World :=
  {| chat := fun _ _ => Some content;
     http_get := fun _ _ => None;
     today := fun _ => "2024-05-01";
     JSON_parse := fun s =>
       if String.eqb s (json_query "x")
       then Some (VObj [("query", VStr "x")]) else None;
     number_positive := fun _ => false;
     TMDB_API_KEY := "KEY" |}.

Definition fenced (opening b : string) : string :=
  opening ++ String LF (b ++ String LF fence).

Definition commented_query : string :=
  annotate [("{", " the title"); (quoted "query" ++ ":" ++ quoted "x", EmptyString)] "}".

(** Is the address that of a person search? *)
Definition person_search (url : string) : bool :=
  match strip_prefix "https://api.themoviedb.org/3/search/person?" url with
  | Some _ => true
  | None => false
  end.

(** ** Vocabulary of the further properties *)

(** [c] does not occur in [s]. *)
Fixpoint lacks (c : ascii) (s : string) : bool :=
  match s with
  | EmptyString => true
  | String x t => negb (Ascii.eqb x c) && lacks c t
  end.

(** The text that the loop of [fetchFromTMDB] appends for a list of
    recognized parameters. *)
Fixpoint appended (ps : list (string * string * value)) : option string :=
  match ps with
  | [] => Some EmptyString
  | (_, t, v) :: r =>
      match to_string v, appended r with
      | Some s, Some rest => Some ("&" ++ t ++ "=" ++ encodeURIComponent s ++ rest)
      | _, _ => None
      end
  end.

(** The catalog names of a list of recognized parameters. *)
Definition catalog_names (ps : list (string * string * value)) : list string :=
  map (fun p => snd (fst p)) ps.

(** No key of the object is a member of [Object.prototype]. *)
Definition plain_keys (o : obj) : Prop :=
  Forall (fun k => assoc object_prototype k = None) (map fst o).

Definition sample_query : obj :=
  [("vote_count_gte", VNum 1000); ("foo", VStr "a&b=c");
   ("query", VStr EmptyString); ("with_genres", VStr "27,35&x=y#z")].

(** The answers of the catalog do not depend on the calls made before. *)
Definition steady (W : World) : Prop :=
  forall (h1 h2 : trace) (url : string), http_get W h1 url = http_get W h2 url.

(** What the catalog answers to the keyword search for one name
    contributes to the ids. *)
Definition keyword_ids_of (W : World) (h : trace) (kName : string) : list value :=
  pushed W (http_get W h (keyword_url W kName)).

(** A value that is neither an array nor an object. *)
Definition scalar (v : value) : Prop :=
  match v with VArr _ | VObj _ => False | _ => True end.

(** Every id that a search of this world yields is a scalar. *)
Definition scalar_ids (W : World) : Prop :=
  forall h url data id,
    http_get W h url = Some data -> first_result_id W data = Some id ->
    scalar id.

(** Every field of the object holds a string. *)
Definition string_fields (o : obj) : Prop :=
  Forall (fun p => exists s, snd p = VStr s) o.

(** The four fields that [fetchFromTMDB] may write or delete. *)
Definition resolution_fields : list string :=
  ["with_cast"; "with_cast_names"; "with_keywords"; "with_keywords_names"].

(** A genre that the [reduce] of the refresh accepts: an object whose
    [name] is a string. *)
Definition named (genre : value) : Prop :=
  exists g name, genre = VObj g /\ own g "name" = VStr name.


(** The key under which a genre is stored, when it has one. *)
Definition genre_key (genre : value) : option string :=
  match genre with
  | VObj g => match own g "name" with
              | VStr name => Some (toLowerCase name)
              | _ => None
              end
  | _ => None
  end.

(** The model classifies every message as a film request and answers
    [null] to the synthesis; the parser knows that one text. *)
Definition null_query : World :=
  {| chat := fun _ r => match r with
                        | ClassifyRequest _ => Some "movie"
                        | _ => Some "null"
                        end;
     http_get := fun _ _ => None;
     today := fun _ => "2024-05-01";
     JSON_parse := fun s => if String.eqb s "null" then Some VNull else None;
     number_positive := fun _ => false;
     TMDB_API_KEY := "KEY" |}.

Definition starts_with_slash (s : string) : bool :=
  match s with
  | EmptyString => false
  | String c _ => Ascii.eqb slash c
  end.

(* ================================================================== *)
(** * The title endpoint, [GET /api/title/:type/:id] *)
(* ================================================================== *)

Module Title.
Import Str Js.

(** How [axios.get] on the detail address ends: with a response of the
    catalog, with an error that carries the catalog's response (its
    status and body), or with an error that carries none. *)
Inductive reply : Type :=
| Served (data : value)
| Refused (status : Z) (data : value)
| Unreachable.

(** How the handler ends: [res.status(status).json(body)], or its
    promise rejected by an exception raised in the [catch]. *)
Inductive answer : Type :=
| Sent (status : Z) (body : value)
| Thrown.

Definition title_url (key type id : string) : string :=
  "https://api.themoviedb.org/3/" ++ type ++ "/" ++ id ++ "?api_key=" ++ key ++
  "&append_to_response=credits".

(** [{ error: v }]. *)
Definition error_body (v : value) : value := VObj [("error", v)].

Definition title (get : trace -> string -> reply) (key type id : string)
  : M answer :=
  if is_empty id || is_empty type then
    ret (Sent 400 (error_body (VStr "Type and ID are required.")))
  else if negb (String.eqb type "movie" || String.eqb type "tv") then
    ret (Sent 400 (error_body (VStr "Invalid type. Must be 'movie' or 'tv'.")))
  else
    fun h =>
      let url := title_url key type id in
      (match get h url with
       | Served data => Sent 200 data
       | Refused status data =>
           match field data "status_message" with
           | Some message => Sent status (error_body message)
           | None => Thrown
           end
       | Unreachable =>
           Sent 500 (error_body (VStr ("Failed to fetch " ++ type ++ " details.")))
       end,
       Get url :: h).

End Title.

(* ================================================================== *)
(** * The chat client, [handleSend] of [ChatClient.tsx] *)
(* ================================================================== *)

Module Client.
Import Str Js.

Inductive role : Type := User | Assistant.

Record Message : Type := {
  role_of : role;
  content : string;
  recs : option (list value)
}.

(** A message as [axios.post] serializes it. *)
Definition to_json (m : Message) : value :=
  VObj (("role", VStr match role_of m with
                      | User => "user"
                      | Assistant => "assistant"
                      end)
        :: ("content", VStr (content m))
        :: match recs m with
           | Some r => [("recs", VArr r)]
           | None => []
           end).

Definition user_message (text : string) : Message :=
  {| role_of := User; content := text; recs := None |}.

Definition typingIndicator : Message :=
  {| role_of := Assistant; content := "..."; recs := None |}.

(** [handleSend] up to the request: nothing happens on a blank input;
    otherwise the messages posted, and the transcript once the two
    state updates are applied. *)
Definition handleSend (messages : list Message) (userInput : string)
  : option (list Message * list Message) :=
  if is_empty (trim userInput) then None
  else
    let newMessages := (messages ++ [user_message userInput])%list in
    Some (newMessages, (newMessages ++ [typingIndicator])%list).

(** [data.response || "Sorry, something went wrong."]. *)
Definition response_text (body : payload) : string :=
  let r := match body with
           | Recommendation r _ _ _ => r
           | Plain r => r
           | ErrorBody _ => EmptyString
           end in
  if is_empty r then "Sorry, something went wrong." else r.

(** The cards kept: [data.tmdbData] when it is an array that is not
    empty. *)
Definition response_recs (body : payload) : option (list value) :=
  match body with
  | Recommendation _ (VArr (x :: r)) _ _ => Some (x :: r)
  | _ => None
  end.

(** The state update made when the request ends with [status] and
    [body]: axios resolves on a status from 200 to 299 and rejects
    otherwise; either way the last message, the placeholder, is
    replaced. *)
Definition receive (status : Z) (body : payload) (prev : list Message)
  : list Message :=
  let assistantMessage :=
    if ((200 <=? status) && (status <? 300))%Z then
      {| role_of := Assistant; content := response_text body;
         recs := response_recs body |}
    else
      {| role_of := Assistant;
         content := "Sorry, something went wrong. Please try again.";
         recs := None |} in
  (removelast prev ++ [assistantMessage])%list.

End Client.

(* ================================================================== *)
(** * Bold spans in a message, [parseContent] of [ChatClient.tsx] *)
(* ================================================================== *)

Module Bold.
Import Str.

Definition star : ascii := "*"%char.
Definition marker : string := "**".

(** The lazy part of the pattern after an opening marker (any
    characters, as few as possible, then a marker): the shortest run of
    characters other than line terminators that is followed by a
    marker; the run and what follows the marker. *)
Fixpoint closing (s : string) : option (string * string) :=
  match strip_prefix marker s with
  | Some rest => Some (EmptyString, rest)
  | None =>
      match s with
      | EmptyString => None
      | String c t =>
          if is_line_terminator c then None
          else match closing t with
               | Some (inner, rest) => Some (String c inner, rest)
               | None => None
               end
      end
  end.

(** [content.split] on the pattern of a bold span (a marker, any
    characters, as few as possible, and a marker), captured, so that
    the spans are kept among the parts: the match is tried at every
    position from the left; where it succeeds the text read so far and
    the matched span are pushed and the scan goes on after the span.
    [text] is the text read since the last span; the fuel is one step
    per character. *)
Fixpoint split_from (fuel : nat) (text s : string) : list string :=
  match fuel with
  | O => [text ++ s]
  | S n =>
      match s with
      | EmptyString => [text]
      | String c t =>
          let skip := split_from n (text ++ String c EmptyString) t in
          match strip_prefix marker s with
          | Some r =>
              match closing r with
              | Some (inner, rest) =>
                  text :: (marker ++ inner ++ marker) :: split_from n EmptyString rest
              | None => skip
              end
          | None => skip
          end
      end
  end.

Definition split_bold (content : string) : list string :=
  split_from (String.length content) EmptyString content.

Inductive node : Type :=
| Strong (text : string)
| Text (text : string).

Definition starts_with_marker (s : string) : bool :=
  match strip_prefix marker s with Some _ => true | None => false end.

Fixpoint ends_with_marker (s : string) : bool :=
  match s with
  | String a (String b EmptyString) => Ascii.eqb a star && Ascii.eqb b star
  | String _ t => ends_with_marker t
  | EmptyString => false
  end.

(** [part.slice(2, -2)]. *)
Definition slice_2 (part : string) : string :=
  substring 2 (String.length part - 4) part.

Definition render (part : string) : node :=
  if starts_with_marker part && ends_with_marker part
  then Strong (slice_2 part) else Text part.

Definition parseContent (content : string) : list node :=
  map render (split_bold content).

End Bold.

(* ================================================================== *)
(** * Properties *)
(* ================================================================== *)

(** ** Strings and values *)

Example trim_ex : Str.trim "  Tom Hanks " = "Tom Hanks".
Proof. reflexivity. Qed.
Example split_ex : Str.split "," "a,,b," = ["a"; EmptyString; "b"; EmptyString].
Proof. reflexivity. Qed.
Example enc_ex : Str.encodeURIComponent "a b&c=d/e" = "a%20b%26c%3Dd%2Fe".
Proof. reflexivity. Qed.
Example ofz_ex : Str.of_Z 0 = "0" /\ Str.of_Z (-12) = "-12" /\ Str.of_Z 1000 = "1000".
Proof. repeat split; reflexivity. Qed.

Lemma append_assoc (a b c : string) : (a ++ b) ++ c = a ++ (b ++ c).
Proof. induction a as [|x a IH]; simpl; [reflexivity|]. now rewrite IH. Qed.

Lemma append_empty_r (a : string) : a ++ EmptyString = a.
Proof. induction a as [|x a IH]; simpl; [reflexivity|]. now rewrite IH. Qed.

Example sanitize_ex1 :
  Sanitize.sanitizeAIResponse
    ("```json" ++ String Str.LF "{ }" ++ String Str.LF "```") = "{ }".
Proof. reflexivity. Qed.
Example sanitize_ex2 :
  Sanitize.sanitizeAIResponse
    ("{ // first" ++ String Str.LF "} // last") = "{ " ++ String Str.LF "}".
Proof. reflexivity. Qed.

Example to_string_ex :
  Js.to_string (VArr [VNum 1; VNull; VStr "a"; VArr [VNum 2; VNum 3]])
  = Some "1,,a,2,3".
Proof. reflexivity. Qed.
Example new_Set_ex :
  Js.new_Set [VStr "1"; VNum 1; VStr "1"; VNum 2; VNum 1]
  = [VStr "1"; VNum 1; VNum 2].
Proof. reflexivity. Qed.

(** ** The allow-list of the discovery request *)

Example allow_list_ex :
  urls (snd (fetchFromTMDB Demo.quiet
               (VObj [("vote_count_gte", VNum 1000); ("foo", VStr "bar");
                      ("sort_by", VStr "popularity.desc");
                      ("query", VStr EmptyString)]) Tv []))
  = ["https://api.themoviedb.org/3/discover/tv?api_key=KEY&language=en-US&vote_count.gte=1000&sort_by=popularity.desc"].
Proof. reflexivity. Qed.

(** C1 (the code departs from the claim).  A field named after a member
    of [Object.prototype] passes the test [mappings[key]] and is sent,
    and the language value is appended without encoding, so it can
    carry further parameters: in both requests below the address holds
    a parameter name that the allow-list does not produce. *)
Theorem allow_list_bypassed :
  (let q := VObj [("constructor", VStr "x")] in
   assoc mappings "constructor" = None /\
   urls (snd (fetchFromTMDB Demo.quiet q Movie []))
   = ["https://api.themoviedb.org/3/discover/movie?api_key=KEY&language=en-US&function Object() { [native code] }=x"] /\
   exists url n, In url (urls (snd (fetchFromTMDB Demo.quiet q Movie []))) /\
                 In n (sent_names url) /\ ~ In n upstream_names)
  /\
  (let q := VObj [("language", VStr "en-US&page=2")] in
   urls (snd (fetchFromTMDB Demo.quiet q Tv []))
   = ["https://api.themoviedb.org/3/discover/tv?api_key=KEY&language=en-US&page=2"] /\
   exists url, In url (urls (snd (fetchFromTMDB Demo.quiet q Tv []))) /\
               In "page" (sent_names url) /\ ~ In "page" upstream_names).
Proof.
  split; cbv zeta.
  - split; [reflexivity|]. split; [reflexivity|].
    eexists; eexists. split; [left; reflexivity|].
    split.
    + vm_compute. right; right; left; reflexivity.
    + vm_compute. intros H.
      repeat (destruct H as [H|H]; [discriminate H|]). exact H.
  - split; [reflexivity|].
    eexists. split; [left; reflexivity|].
    split.
    + vm_compute. right; right; left; reflexivity.
    + vm_compute. intros H.
      repeat (destruct H as [H|H]; [discriminate H|]). exact H.
Qed.

(** Outside the members of [Object.prototype] the loop does follow the
    allow-list: what it appends comes from [mappings], for a truthy
    field. *)
Lemma recognized_from_mappings (o : obj) (k t : string) (v : value) :
  assoc object_prototype k = None ->
  In (k, t, v) (recognized o) ->
  assoc mappings k = Some t /\ In (k, v) o /\ truthy v = true.
Proof.
  intros Hk. induction o as [|[k' v'] r IH]; simpl; [tauto|].
  unfold mappings_lookup.
  destruct (assoc mappings k') as [t'|] eqn:E.
  - destruct (truthy v') eqn:T.
    + intros [H|H].
      * inversion H; subst. auto.
      * destruct (IH H) as (A & B & C). auto.
    + intros H. destruct (IH H) as (A & B & C). auto.
  - destruct (assoc object_prototype k') as [t'|] eqn:E'.
    + destruct (truthy v') eqn:T.
      * intros [H|H].
        -- inversion H; subst. congruence.
        -- destruct (IH H) as (A & B & C). auto.
      * intros H. destruct (IH H) as (A & B & C). auto.
    + intros H. destruct (IH H) as (A & B & C). auto.
Qed.

(** ** Objects *)

Lemma obj_get_delete_same (o : obj) (k : string) :
  obj_get (obj_delete o k) k = None.
Proof.
  induction o as [|[k' v] r IH]; simpl; [reflexivity|].
  destruct (String.eqb k' k) eqn:E; simpl; [exact IH|].
  rewrite E. exact IH.
Qed.

Lemma obj_get_delete_other (o : obj) (k k' : string) :
  k <> k' -> obj_get (obj_delete o k') k = obj_get o k.
Proof.
  intros Hk. induction o as [|[k0 v] r IH]; simpl; [reflexivity|].
  destruct (String.eqb k0 k') eqn:E; simpl.
  - apply String.eqb_eq in E. subst k0.
    destruct (String.eqb k' k) eqn:E'; [|exact IH].
    apply String.eqb_eq in E'. congruence.
  - rewrite IH. reflexivity.
Qed.

Lemma obj_get_set_same (o : obj) (k : string) (v : value) :
  obj_get (obj_set o k v) k = Some v.
Proof.
  induction o as [|[k' v'] r IH]; simpl.
  - rewrite String.eqb_refl. reflexivity.
  - destruct (String.eqb k' k) eqn:E; simpl.
    + rewrite String.eqb_refl. reflexivity.
    + rewrite E. exact IH.
Qed.

Lemma obj_get_set_other (o : obj) (k k' : string) (v : value) :
  k <> k' -> obj_get (obj_set o k' v) k = obj_get o k.
Proof.
  intros Hk. induction o as [|[k0 v0] r IH]; simpl.
  - destruct (String.eqb k' k) eqn:E; [|reflexivity].
    apply String.eqb_eq in E. congruence.
  - destruct (String.eqb k0 k') eqn:E; simpl.
    + apply String.eqb_eq in E. subst k0.
      destruct (String.eqb k' k) eqn:E'; [|reflexivity].
      apply String.eqb_eq in E'. congruence.
    + destruct (String.eqb k0 k); [reflexivity|exact IH].
Qed.

Lemma recognized_lookup (o : obj) (k t : string) (v : value) :
  In (k, t, v) (recognized o) -> mappings_lookup k = Some t.
Proof.
  induction o as [|[k' v'] r IH]; simpl; [tauto|].
  destruct (mappings_lookup k') as [t'|] eqn:E; [|exact IH].
  destruct (truthy v'); [|exact IH].
  intros [H|H]; [|exact (IH H)].
  inversion H; subst. exact E.
Qed.

Lemma own_delete_same (o : obj) (k : string) : own (obj_delete o k) k = VUndef.
Proof. unfold own. now rewrite obj_get_delete_same. Qed.

Lemma own_delete_other (o : obj) (k k' : string) :
  k <> k' -> own (obj_delete o k') k = own o k.
Proof. intros H. unfold own. now rewrite obj_get_delete_other. Qed.

Lemma own_set_other (o : obj) (k k' : string) (v : value) :
  k <> k' -> own (obj_set o k' v) k = own o k.
Proof. intros H. unfold own. now rewrite obj_get_set_other. Qed.

(** ** Name-based fields after resolution *)

Lemma resolve_cast_names (W : World) (o o' : obj) (h h' : trace) :
  resolve_cast W o h = (Some o', h') ->
  truthy (own o' "with_cast_names") = false /\
  own o' "with_keywords_names" = own o "with_keywords_names".
Proof.
  unfold resolve_cast.
  destruct (truthy (own o "with_cast_names")) eqn:T.
  - destruct (own o "with_cast_names") as [| | | |s| |];
      try (unfold ret; discriminate).
    unfold bind.
    destruct (fetchActorIdsByNames W _ (language_of o) h) as [ids h1].
    destruct ids as [|i r].
    + unfold ret. intros E. inversion E; subst.
      rewrite own_delete_same, own_delete_other by discriminate.
      split; reflexivity.
    + destruct (join_values "," (i :: r)) as [j|];
        [|unfold ret; discriminate].
      unfold ret. intros E. inversion E; subst.
      rewrite own_delete_same, own_delete_other, own_set_other
        by discriminate.
      split; reflexivity.
  - unfold ret. intros E. inversion E; subst. auto.
Qed.

Lemma resolve_keywords_names (W : World) (o o' : obj) (h h' : trace) :
  resolve_keywords W o h = (Some o', h') ->
  truthy (own o' "with_keywords_names") = false /\
  own o' "with_cast_names" = own o "with_cast_names".
Proof.
  unfold resolve_keywords.
  destruct (truthy (own o "with_keywords_names")) eqn:T.
  - destruct (own o "with_keywords_names") as [| | | |s| |];
      try (unfold ret; discriminate).
    unfold bind.
    destruct (fetchKeywordIdsByNames W _ h) as [ids h1].
    destruct ids as [|i r].
    + unfold ret. intros E. inversion E; subst.
      rewrite own_delete_same, own_delete_other by discriminate.
      split; reflexivity.
    + destruct (if truthy (own o "with_keywords")
                then match own o "with_keywords" with
                     | VStr e => merge_keywords e (i :: r)
                     | _ => None
                     end
                else join_values "|" (i :: r)) as [c|];
        [|unfold ret; discriminate].
      unfold ret. intros E. inversion E; subst.
      rewrite own_delete_same, own_delete_other, own_set_other
        by discriminate.
      split; reflexivity.
  - unfold ret. intros E. inversion E; subst. auto.
Qed.

(** After a call of [fetchFromTMDB] that returns, the query holds no
    truthy name-based field. *)
Lemma names_do_not_survive (W : World) (q : value) (rt : request_type)
                           (h t : trace) (res q' : value) :
  fetchFromTMDB W q rt h = (Some (res, q'), t) ->
  truthy (own (fields_of q') "with_cast_names") = false /\
  truthy (own (fields_of q') "with_keywords_names") = false.
Proof.
  unfold fetchFromTMDB.
  assert (G :
    (cast <- resolve_cast W (fields_of q) ;;
     match cast with
     | None => ret None
     | Some o1 =>
         kw <- resolve_keywords W o1 ;;
         match kw with
         | None => ret None
         | Some o2 =>
             match discover_url W rt o2 (language_of (fields_of q)) with
             | None => ret None
             | Some baseUrl =>
                 resp <- ask_get W baseUrl ;;
                 ret (Some (results_of rt resp, requery q o2))
             end
         end
     end) h = (Some (res, q'), t) ->
    truthy (own (fields_of q') "with_cast_names") = false /\
    truthy (own (fields_of q') "with_keywords_names") = false).
  { unfold bind.
    destruct (resolve_cast W (fields_of q) h) as [[o1|] h1] eqn:E1;
      [|discriminate].
    destruct (resolve_keywords W o1 h1) as [[o2|] h2] eqn:E2;
      [|discriminate].
    destruct (discover_url W rt o2 _) as [u|]; [|discriminate].
    unfold ask_get, ret. intros E. inversion E; subst.
    destruct (resolve_cast_names W _ _ _ _ E1) as [C1 K1].
    destruct (resolve_keywords_names W _ _ _ _ E2) as [K2 C2].
    destruct q; try (split; reflexivity).
    simpl fields_of. rewrite C2. split; assumption. }
  destruct q; try exact G. discriminate.
Qed.

Lemma resolve_cast_other (W : World) (o o' : obj) (h h' : trace) (k : string) :
  resolve_cast W o h = (Some o', h') ->
  k <> "with_cast" -> k <> "with_cast_names" ->
  obj_get o' k = obj_get o k.
Proof.
  unfold resolve_cast. intros E K1 K2.
  destruct (truthy (own o "with_cast_names")).
  - destruct (own o "with_cast_names") as [| | | |s| |];
      try (unfold ret in E; discriminate).
    unfold bind in E.
    destruct (fetchActorIdsByNames W _ (language_of o) h) as [ids h1].
    destruct ids as [|i r].
    + unfold ret in E. inversion E; subst.
      now rewrite obj_get_delete_other.
    + destruct (join_values "," (i :: r)) as [j|];
        [|unfold ret in E; discriminate].
      unfold ret in E. inversion E; subst.
      now rewrite obj_get_delete_other, obj_get_set_other.
  - unfold ret in E. inversion E; subst. reflexivity.
Qed.

Lemma resolve_keywords_other (W : World) (o o' : obj) (h h' : trace)
                             (k : string) :
  resolve_keywords W o h = (Some o', h') ->
  k <> "with_keywords" -> k <> "with_keywords_names" ->
  obj_get o' k = obj_get o k.
Proof.
  unfold resolve_keywords. intros E K1 K2.
  destruct (truthy (own o "with_keywords_names")).
  - destruct (own o "with_keywords_names") as [| | | |s| |];
      try (unfold ret in E; discriminate).
    unfold bind in E.
    destruct (fetchKeywordIdsByNames W _ h) as [ids h1].
    destruct ids as [|i r].
    + unfold ret in E. inversion E; subst.
      now rewrite obj_get_delete_other.
    + destruct (if truthy (own o "with_keywords")
                then match own o "with_keywords" with
                     | VStr e => merge_keywords e (i :: r)
                     | _ => None
                     end
                else join_values "|" (i :: r)) as [c|];
        [|unfold ret in E; discriminate].
      unfold ret in E. inversion E; subst.
      now rewrite obj_get_delete_other, obj_get_set_other.
  - unfold ret in E. inversion E; subst. reflexivity.
Qed.

(** The steps of a call of [fetchFromTMDB] that returns. *)
Lemma fetch_steps (W : World) (q : value) (rt : request_type) (h t : trace)
                  (res q' : value) :
  fetchFromTMDB W q rt h = (Some (res, q'), t) ->
  exists o1 h1 o2 h2 url,
    resolve_cast W (fields_of q) h = (Some o1, h1) /\
    resolve_keywords W o1 h1 = (Some o2, h2) /\
    discover_url W rt o2 (language_of (fields_of q)) = Some url /\
    t = Get url :: h2 /\
    res = results_of rt (http_get W h2 url) /\
    q' = requery q o2.
Proof.
  unfold fetchFromTMDB.
  assert (G :
    (cast <- resolve_cast W (fields_of q) ;;
     match cast with
     | None => ret None
     | Some o1 =>
         kw <- resolve_keywords W o1 ;;
         match kw with
         | None => ret None
         | Some o2 =>
             match discover_url W rt o2 (language_of (fields_of q)) with
             | None => ret None
             | Some baseUrl =>
                 resp <- ask_get W baseUrl ;;
                 ret (Some (results_of rt resp, requery q o2))
             end
         end
     end) h = (Some (res, q'), t) ->
    exists o1 h1 o2 h2 url,
      resolve_cast W (fields_of q) h = (Some o1, h1) /\
      resolve_keywords W o1 h1 = (Some o2, h2) /\
      discover_url W rt o2 (language_of (fields_of q)) = Some url /\
      t = Get url :: h2 /\
      res = results_of rt (http_get W h2 url) /\
      q' = requery q o2).
  { unfold bind.
    destruct (resolve_cast W (fields_of q) h) as [[o1|] h1] eqn:E1;
      [|discriminate].
    destruct (resolve_keywords W o1 h1) as [[o2|] h2] eqn:E2;
      [|discriminate].
    destruct (discover_url W rt o2 _) as [u|] eqn:E3; [|discriminate].
    unfold ask_get, ret. intros E. inversion E; subst.
    exists o1, h1, o2, h2, u. repeat split; try reflexivity; assumption. }
  destruct q; try exact G. discriminate.
Qed.

(** ** Keyword merge *)

Example merge_ex :
  merge_keywords "12 | 7" [VNum 9; VNum 9; VStr "7"] = Some "12|7|9".
Proof. reflexivity. Qed.

(** C3 (the code departs from the claim).  The pre-existing ids come
    out of [split] as strings and the resolved ids are the catalog's
    numbers; [Set] keeps a string and a number apart, so an id present
    on both sides appears twice in the merged filter. *)
Theorem keyword_merge_repeats_id :
  let q := VObj [("with_keywords", VStr "123");
                 ("with_keywords_names", VStr "heist")] in
  pushed Demo.catalog (http_get Demo.catalog [] (keyword_url Demo.catalog "heist"))
  = [VNum 123] /\
  merge_keywords "123" [VNum 123] = Some "123|123" /\
  fst (fetchFromTMDB Demo.catalog q Movie [])
  = Some (VArr [], VObj [("with_keywords", VStr "123|123")]).
Proof. cbv zeta. repeat split; reflexivity. Qed.

(** What the merge does keep: every pre-existing id is in the merged
    set. *)
Lemma set_add_all_keeps (x : value) (l seen : list value) :
  In x seen -> In x (set_add_all seen l).
Proof.
  revert seen. induction l as [|y r IH]; simpl; intros seen H; [exact H|].
  apply IH. destruct (existsb (same_value_zero y) seen); [exact H|].
  apply in_or_app. left. exact H.
Qed.

Lemma same_value_zero_str (s : string) (y : value) :
  same_value_zero y (VStr s) = true -> y = VStr s.
Proof.
  destruct y; simpl; try discriminate.
  intros H. apply String.eqb_eq in H. congruence.
Qed.

Lemma set_add_all_str (s : string) (l seen : list value) :
  In (VStr s) l -> In (VStr s) (set_add_all seen l).
Proof.
  revert seen. induction l as [|y r IH]; simpl; intros seen H; [tauto|].
  destruct H as [H|H]; [|apply IH; exact H].
  subst y. apply set_add_all_keeps.
  destruct (existsb (same_value_zero (VStr s)) seen) eqn:E.
  - apply existsb_exists in E. destruct E as (z & Hz & Hs).
    destruct z; simpl in Hs; try discriminate.
    apply String.eqb_eq in Hs. subst. exact Hz.
  - apply in_or_app. right. left. reflexivity.
Qed.

Lemma merge_keeps_existing (e : string) (ids : list value) (x : string) :
  In x (map trim (split "|" e)) ->
  In (VStr x) (new_Set (map VStr (map trim (split "|" e)) ++ ids)%list).
Proof.
  intros H. apply set_add_all_str. apply in_or_app. left.
  apply in_map. exact H.
Qed.

(** ** Cast names *)

Example cast_two_names_one_resolves :
  fst (fetchFromTMDB Demo.catalog
         (VObj [("with_cast_names", VStr "Tom Hanks, Nobody")]) Movie [])
  = Some (VArr [], VObj [("with_cast", VStr "31")]).
Proof. reflexivity. Qed.

(** C4, as stated, fails on a cast-names field that holds the empty
    string: the guard [if (queryParams.with_cast_names)] skips the
    block, and the field stays in the query object. *)
Lemma empty_cast_names_kept :
  let q := VObj [("with_cast_names", VStr EmptyString)] in
  obj_get (fields_of q) "with_cast_names" = Some (VStr EmptyString) /\
  fst (fetchFromTMDB Demo.catalog q Movie []) = Some (VArr [], q).
Proof. cbv zeta. split; reflexivity. Qed.

Lemma truthy_str (s : string) : s <> EmptyString -> truthy (VStr s) = true.
Proof. destruct s; [congruence|reflexivity]. Qed.

(** *** The calls of a resolution *)

Lemma keyword_trace (W : World) (names : list string) (h : trace) :
  snd (fetchKeywordIdsByNames W names h)
  = (map Get (rev (map (keyword_url W) names)) ++ h)%list.
Proof.
  revert h. induction names as [|n r IH]; intros h; [reflexivity|].
  cbn [fetchKeywordIdsByNames]. unfold bind, ask_get, ret.
  specialize (IH (Get (keyword_url W n) :: h)).
  destruct (fetchKeywordIdsByNames W r (Get (keyword_url W n) :: h))
    as [ids t].
  cbn [snd] in *. rewrite IH. cbn [map rev].
  rewrite map_app, <- app_assoc. reflexivity.
Qed.

Lemma resolve_keywords_trace (W : World) (o : obj) (h : trace) :
  exists names,
    snd (resolve_keywords W o h)
    = (map Get (rev (map (keyword_url W) names)) ++ h)%list.
Proof.
  unfold resolve_keywords.
  destruct (truthy (own o "with_keywords_names"));
    [|exists []; reflexivity].
  destruct (own o "with_keywords_names") as [| | | |s| |];
    try (exists []; reflexivity).
  exists (map trim (split "," s)). unfold bind.
  pose proof (keyword_trace W (map trim (split "," s)) h) as T.
  destruct (fetchKeywordIdsByNames W (map trim (split "," s)) h) as [ids h1].
  cbn [snd] in T. subst h1.
  destruct ids as [|i r]; [reflexivity|].
  destruct (if truthy (own o "with_keywords")
            then match own o "with_keywords" with
                 | VStr e => merge_keywords e (i :: r)
                 | _ => None
                 end
            else join_values "|" (i :: r)); reflexivity.
Qed.

Lemma urls_get (u : string) (h : trace) : urls (Get u :: h) = u :: urls h.
Proof. reflexivity. Qed.

Lemma urls_gets (l : list string) : urls (map Get l) = l.
Proof. induction l as [|u l IH]; simpl; [reflexivity|now rewrite IH]. Qed.

Lemma keyword_url_not_person (W : World) (n : string) :
  person_search (keyword_url W n) = false.
Proof. reflexivity. Qed.

Lemma append_params_prefix (ps : list (string * string * value))
                           (url u : string) :
  append_params url ps = Some u -> exists tail, u = url ++ tail.
Proof.
  revert url. induction ps as [|[[k t] v] r IH]; intros url;
    cbn [append_params].
  - intros E. inversion E. exists EmptyString. now rewrite append_empty_r.
  - destruct (to_string v) as [x|]; [|discriminate].
    intros E. destruct (IH _ E) as (tail & ->).
    eexists. rewrite append_assoc. reflexivity.
Qed.

Lemma discover_url_not_person (W : World) (rt : request_type) (o : obj)
                              (language : value) (url : string) :
  discover_url W rt o language = Some url -> person_search url = false.
Proof.
  unfold discover_url.
  destruct (to_string language) as [l|]; [|discriminate].
  intros E. destruct (append_params_prefix _ _ _ E) as (tail & ->).
  destruct rt; reflexivity.
Qed.

Lemma language_of_resolved (o : obj) (v : value) :
  language_of (obj_delete o "with_cast_names") = language_of o /\
  language_of (obj_delete (obj_set o "with_cast" v) "with_cast_names")
  = language_of o.
Proof.
  unfold language_of.
  rewrite !own_delete_other, own_set_other by discriminate. auto.
Qed.

(** C4 (amended).  For a query object whose cast-names field is a
    non-empty string, the names are split on commas, trimmed and handed
    to the person search.  When the resolved ids can be joined, the
    call goes on exactly as for the query in which the name-based field
    is deleted and the id-based cast filter is the joined ids when
    there is at least one, and is left as it was when there is none:
    after a call that returns, the query holds these two fields so.
    When the ids cannot be joined the call raises after the searches.
    For a query object whose cast-names field is falsy the step is
    skipped: after a call that returns both fields are as they were,
    and no person search is among the calls made.  Whatever the query,
    no parameter of the request comes from a name-based field, and
    after a call that returns the query holds no truthy name-based
    field. *)
Theorem cast_names_resolved
  (W : World) (rt : request_type) (o : obj) (h : trace) :
  (forall s, own o "with_cast_names" = VStr s -> s <> EmptyString ->
     let searched :=
       fetchActorIdsByNames W (map trim (split "," s)) (language_of o) h in
     (forall joined, join_values "," (fst searched) = Some joined ->
        let o1 := obj_delete
                    match fst searched with
                    | [] => o
                    | _ :: _ => obj_set o "with_cast" (VStr joined)
                    end "with_cast_names" in
        obj_get o1 "with_cast_names" = None /\
        fetchFromTMDB W (VObj o) rt h
        = fetchFromTMDB W (VObj o1) rt (snd searched) /\
        forall res q' t,
          fetchFromTMDB W (VObj o) rt h = (Some (res, q'), t) ->
          obj_get (fields_of q') "with_cast_names" = None /\
          obj_get (fields_of q') "with_cast"
          = match fst searched with
            | [] => obj_get o "with_cast"
            | _ :: _ => Some (VStr joined)
            end) /\
     (join_values "," (fst searched) = None ->
      fetchFromTMDB W (VObj o) rt h = (None, snd searched)))
  /\
  (truthy (own o "with_cast_names") = false ->
   forall res q' t,
     fetchFromTMDB W (VObj o) rt h = (Some (res, q'), t) ->
     obj_get (fields_of q') "with_cast_names" = obj_get o "with_cast_names" /\
     obj_get (fields_of q') "with_cast" = obj_get o "with_cast" /\
     exists t', t = (t' ++ h)%list /\
                forallb (fun u => negb (person_search u)) (urls t') = true)
  /\
  (forall (o' : obj) k t v,
     In (k, t, v) (recognized o') ->
     k <> "with_cast_names" /\ k <> "with_keywords_names")
  /\
  (forall q h0 res q' t,
     fetchFromTMDB W q rt h0 = (Some (res, q'), t) ->
     truthy (own (fields_of q') "with_cast_names") = false /\
     truthy (own (fields_of q') "with_keywords_names") = false).
Proof.
  split; [|split; [|split]].
  - intros s Hs Hne searched.
    assert (Hcast : resolve_cast W o h =
              match fst searched with
              | [] => (Some (obj_delete o "with_cast_names"), snd searched)
              | _ :: _ =>
                  match join_values "," (fst searched) with
                  | Some joined =>
                      (Some (obj_delete (obj_set o "with_cast" (VStr joined))
                                        "with_cast_names"), snd searched)
                  | None => (None, snd searched)
                  end
              end).
    { unfold resolve_cast. rewrite Hs, (truthy_str s Hne).
      unfold bind. fold searched.
      destruct searched as [ids h1]. cbn [fst snd].
      destruct ids as [|i r]; [reflexivity|].
      destruct (join_values "," (i :: r)); reflexivity. }
    split.
    + intros joined Hj o1.
      assert (E1 : resolve_cast W o h = (Some o1, snd searched)).
      { rewrite Hcast. subst o1.
        destruct (fst searched) as [|i r]; [reflexivity|].
        now rewrite Hj. }
      assert (Hnames : obj_get o1 "with_cast_names" = None)
        by (subst o1; apply obj_get_delete_same).
      assert (Hlang : language_of o1 = language_of o).
      { subst o1. destruct (language_of_resolved o (VStr joined)) as [A B].
        destruct (fst searched); assumption. }
      assert (Hcastid : obj_get o1 "with_cast"
                        = match fst searched with
                          | [] => obj_get o "with_cast"
                          | _ :: _ => Some (VStr joined)
                          end).
      { subst o1. rewrite obj_get_delete_other by discriminate.
        destruct (fst searched); [reflexivity|apply obj_get_set_same]. }
      assert (E1' : resolve_cast W o1 (snd searched) = (Some o1, snd searched)).
      { unfold resolve_cast, own. rewrite Hnames. reflexivity. }
      split; [exact Hnames|]. split.
      * unfold fetchFromTMDB. cbn [fields_of]. unfold bind.
        rewrite E1, E1', Hlang. reflexivity.
      * intros res q' t Hf.
        destruct (fetch_steps W (VObj o) rt h t res q' Hf)
          as (o1' & h1 & o2 & h2 & url & F1 & F2 & _ & _ & _ & ->).
        cbn [fields_of] in F1. rewrite E1 in F1. inversion F1; subst o1' h1.
        cbn [requery fields_of].
        rewrite !(resolve_keywords_other W _ _ _ _ _ F2) by discriminate.
        split; assumption.
    + intros Hj. unfold fetchFromTMDB. cbn [fields_of]. unfold bind.
      rewrite Hcast.
      destruct (fst searched) as [|i r] eqn:Ei; [discriminate Hj|].
      rewrite Hj. reflexivity.
  - intros Hf res q' t E.
    destruct (fetch_steps W (VObj o) rt h t res q' E)
      as (o1 & h1 & o2 & h2 & url & F1 & F2 & F3 & -> & _ & ->).
    cbn [fields_of] in F1. unfold resolve_cast in F1. rewrite Hf in F1.
    unfold ret in F1. inversion F1; subst o1 h1.
    cbn [requery fields_of].
    rewrite !(resolve_keywords_other W _ _ _ _ _ F2) by discriminate.
    split; [reflexivity|]. split; [reflexivity|].
    destruct (resolve_keywords_trace W o h) as (names & T).
    rewrite F2 in T. cbn [snd] in T. subst h2.
    exists (Get url :: map Get (rev (map (keyword_url W) names))).
    split; [reflexivity|].
    rewrite urls_get, urls_gets. cbn [forallb].
    rewrite (discover_url_not_person W rt o2 _ url F3). cbn [negb andb].
    apply forallb_forall. intros u Hu. apply in_rev in Hu.
    apply in_map_iff in Hu. destruct Hu as (n & <- & _).
    now rewrite keyword_url_not_person.
  - intros o' k t v Hin. apply recognized_lookup in Hin.
    split; intros ->; discriminate Hin.
  - intros q h0 res q' t. apply names_do_not_survive.
Qed.

Lemma cast_names_resolved_witness :
  (obj_get [("with_cast", VStr "31")] "with_cast_names" = None /\
   obj_get [("with_cast", VStr "31")] "with_cast" = Some (VStr "31")) /\
  obj_get [("with_cast_names", VNum 0)] "with_cast_names" = Some (VNum 0).
Proof.
  split.
  - pose proof (proj1 (cast_names_resolved Demo.catalog Movie
                         [("with_cast_names", VStr "Tom Hanks, Nobody")] [])
                  "Tom Hanks, Nobody" eq_refl ltac:(discriminate)) as H.
    cbv zeta in H.
    exact (proj2 (proj2 (proj1 H "31" eq_refl))
             (VArr []) (VObj [("with_cast", VStr "31")]) _ eq_refl).
  - pose proof (proj1 (proj2 (cast_names_resolved Demo.catalog Movie
                                [("with_cast_names", VNum 0)] []))
                  eq_refl (VArr []) (VObj [("with_cast_names", VNum 0)]) _
                  eq_refl) as H.
    exact (proj1 H).
Defined.

(** ** Classification *)

Example label_ex :
  label_of " TV " = Tv /\ label_of "none" = NoType /\
  label_of "movies" = NoType /\ label_of EmptyString = NoType.
Proof. repeat split; reflexivity. Qed.

(** C6, as stated, fails on an answer that is a positive label only
    after trimming and lower-casing: [Movie] is neither of the strings
    [movie] and [tv], and the classifier answers [movie]. *)
Lemma classify_normalizes_answer :
  chat (Demo.answering "Movie") [] (ClassifyRequest (VStr "something to watch"))
  = Some "Movie" /\
  "Movie" <> "movie" /\ "Movie" <> "tv" /\
  fst (classifyRequest (Demo.answering "Movie")
         (VStr "something to watch") []) = Movie.
Proof. repeat split; try reflexivity; discriminate. Qed.

(** C6 (amended).  When the classification call fails, or when the
    answer, trimmed and lower-cased, is neither [movie] nor [tv],
    [classifyRequest] returns [none]; it makes the one call and raises
    nothing. *)
Theorem classify_fail_safe (W : World) (userMessage : value) (h : trace) :
  match chat W h (ClassifyRequest userMessage) with
  | Some answer =>
      toLowerCase (trim answer) <> "movie" /\
      toLowerCase (trim answer) <> "tv"
  | None => True
  end ->
  classifyRequest W userMessage h
  = (NoType, Chat (ClassifyRequest userMessage) :: h).
Proof.
  unfold classifyRequest, bind, ask_chat, ret, label_of.
  destruct (chat W h (ClassifyRequest userMessage)) as [answer|];
    [|reflexivity].
  intros [Hm Ht].
  destruct (String.eqb_spec (toLowerCase (trim answer)) "movie") as [E|_];
    [contradiction|].
  destruct (String.eqb_spec (toLowerCase (trim answer)) "tv") as [E|_];
    [contradiction|].
  reflexivity.
Qed.

Lemma classify_fail_safe_witness :
  classifyRequest (Demo.answering "films") (VStr "hello") []
  = (NoType, [Chat (ClassifyRequest (VStr "hello"))]) /\
  classifyRequest Demo.quiet (VStr "hello") []
  = (NoType, [Chat (ClassifyRequest (VStr "hello"))]).
Proof.
  split.
  - apply (classify_fail_safe (Demo.answering "films") (VStr "hello") []).
    simpl. split; discriminate.
  - apply (classify_fail_safe Demo.quiet (VStr "hello") []).
    simpl. exact I.
Defined.

(** ** Query synthesis *)

Lemma resolve_cast_empty (W : World) (h : trace) :
  resolve_cast W [] h = (Some [], h).
Proof. reflexivity. Qed.

(** What does hold of the degradation.  When the synthesis call fails,
    or when its answer, trimmed and sanitized, is rejected by
    [JSON.parse], [generateTMDBQuery] returns the empty object; the
    function has no raising path, and executing the empty object raises
    nothing either: it issues the one discovery request, with the
    default language and no filter. *)
Theorem synthesis_degrades_to_empty_query
  (W : World) (g : genres) (userMessage : value) (rt : request_type)
  (h : trace) :
  (forall listing,
     genre_listing (match rt with Movie => movieGenreMap g
                                | _ => tvGenreMap g end) = Some listing ->
     match chat W h (QueryRequest rt listing (today W h) userMessage) with
     | Some answer => JSON_parse W (sanitizeAIResponse (trim answer)) = None
     | None => True
     end) ->
  fst (generateTMDBQuery W g userMessage rt h) = empty_query /\
  forall h', exists results url,
    fetchFromTMDB W empty_query rt h'
    = (Some (results, empty_query), Get url :: h').
Proof.
  intros H. split.
  - unfold generateTMDBQuery.
    destruct (genre_listing _) as [listing|]; [|reflexivity].
    specialize (H listing eq_refl).
    unfold bind, ask_today, ask_chat, ret.
    destruct (chat W h _) as [answer|]; [|reflexivity].
    simpl. rewrite H. reflexivity.
  - intros h'. unfold fetchFromTMDB, empty_query. simpl fields_of.
    unfold bind. rewrite resolve_cast_empty.
    change (resolve_keywords W [] h') with (@Some obj [], h').
    unfold discover_url. simpl.
    eexists; eexists. reflexivity.
Qed.

Lemma synthesis_degrades_to_empty_query_witness :
  fst (generateTMDBQuery (Demo.answering "not json") Demo.cached
         (VStr "a heist film") Movie []) = empty_query /\
  fst (generateTMDBQuery Demo.quiet Demo.cached
         (VStr "a heist film") Movie []) = empty_query.
Proof.
  split.
  - apply (synthesis_degrades_to_empty_query (Demo.answering "not json")
             Demo.cached (VStr "a heist film") Movie []).
    intros listing _. simpl. reflexivity.
  - apply (synthesis_degrades_to_empty_query Demo.quiet
             Demo.cached (VStr "a heist film") Movie []).
    intros listing _. simpl. exact I.
Defined.

(** ** The discovery request *)

(** A call of [fetchFromTMDB] that returns has ended with the discovery
    request, and its results are those of the [try] block around it. *)
Lemma fetch_shape (W : World) (q : value) (rt : request_type) (h t : trace)
                  (res q' : value) :
  fetchFromTMDB W q rt h = (Some (res, q'), t) ->
  exists url h3, t = Get url :: h3 /\ res = results_of rt (http_get W h3 url).
Proof.
  unfold fetchFromTMDB.
  assert (G : forall o,
    (cast <- resolve_cast W o ;;
     match cast with
     | None => ret None
     | Some o1 =>
         kw <- resolve_keywords W o1 ;;
         match kw with
         | None => ret None
         | Some o2 =>
             match discover_url W rt o2 (language_of o) with
             | None => ret None
             | Some baseUrl =>
                 resp <- ask_get W baseUrl ;;
                 ret (Some (results_of rt resp, requery q o2))
             end
         end
     end) h = (Some (res, q'), t) ->
    exists url h3, t = Get url :: h3 /\ res = results_of rt (http_get W h3 url)).
  { intros o. unfold bind.
    destruct (resolve_cast W o h) as [[o1|] h1]; [|discriminate].
    destruct (resolve_keywords W o1 h1) as [[o2|] h2]; [|discriminate].
    destruct (discover_url W rt o2 (language_of o)) as [u|]; [|discriminate].
    unfold ask_get, ret. intros E. inversion E; subst.
    eexists; eexists; split; reflexivity. }
  destruct q; try (apply G). discriminate.
Qed.

Lemma results_of_failure (rt : request_type) : results_of rt None = VArr [].
Proof. reflexivity. Qed.

Lemma last_content_nonempty (l : list value) :
  l <> [] -> exists x r, l = x :: r.
Proof. destruct l as [|x r]; [congruence|]. intros _. eauto. Qed.

(** The handler past its validation, for a history that is not empty. *)
Lemma respond_nonempty (W : World) (g : genres) (l : list value) (h : trace) :
  l <> [] ->
  respond W g (Some l) h =
  match last_content l with
  | None => (Unhandled, h)
  | Some userMessage =>
      let (requestType, h1) := classifyRequest W userMessage h in
      match requestType with
      | NoType =>
          let (normalResponse, h2) := generateNormalResponse W l h1 in
          (Response 200 (Plain normalResponse), h2)
      | _ =>
          let (queryParams, h2) :=
            generateTMDBQuery W g userMessage requestType h1 in
          let (fetched, h3) := fetchFromTMDB W queryParams requestType h2 in
          match fetched with
          | None =>
              (Response 500 (ErrorBody "Failed to complete the response."), h3)
          | Some (tmdbResults, queryParams') =>
              let (refinedAnswer, h4) :=
                refineResultsWithAI W userMessage tmdbResults requestType h3 in
              (Response 200 (Recommendation refinedAnswer tmdbResults
                                            queryParams' requestType), h4)
          end
      end
  end.
Proof.
  intros Hl. destruct (last_content_nonempty l Hl) as (x & r & ->).
  unfold respond. destruct (last_content (x :: r)) as [m|]; [|reflexivity].
  unfold bind at 1.
  destruct (classifyRequest W m h) as [[| |] h1]; unfold bind, ret.
  - destruct (generateTMDBQuery W g m Movie h1) as [q h2].
    destruct (fetchFromTMDB W q Movie h2) as [[[res q']|] h3]; reflexivity.
  - destruct (generateTMDBQuery W g m Tv h1) as [q h2].
    destruct (fetchFromTMDB W q Tv h2) as [[[res q']|] h3]; reflexivity.
  - reflexivity.
Qed.

(** C5 (the code departs from the claim).  An answer that is JSON
    without being a JSON object is not degraded to the empty query:
    the text [null] parses, [generateTMDBQuery] returns [null] as the
    query, [fetchFromTMDB] raises on its first property read, before
    any request, and the turn ends in the handler's 500. *)
Theorem null_answer_fails_the_turn
  (W : World) (g : genres) (l : list value) (userMessage : value)
  (rt : request_type) (listing : list (string * string)) (answer : string)
  (h h1 : trace) :
  l <> [] ->
  last_content l = Some userMessage ->
  classifyRequest W userMessage h = (rt, h1) ->
  rt <> NoType ->
  genre_listing (match rt with Movie => movieGenreMap g
                             | _ => tvGenreMap g end) = Some listing ->
  chat W h1 (QueryRequest rt listing (today W h1) userMessage) = Some answer ->
  JSON_parse W (sanitizeAIResponse (trim answer)) = Some VNull ->
  let h2 := Chat (QueryRequest rt listing (today W h1) userMessage) :: h1 in
  generateTMDBQuery W g userMessage rt h1 = (VNull, h2) /\
  VNull <> empty_query /\
  fetchFromTMDB W VNull rt h2 = (None, h2) /\
  respond W g (Some l) h
  = (Response 500 (ErrorBody "Failed to complete the response."), h2).
Proof.
  intros Hl Hm Hc Hrt Hg Ha Hp h2.
  assert (Hq : generateTMDBQuery W g userMessage rt h1 = (VNull, h2)).
  { unfold generateTMDBQuery. rewrite Hg.
    unfold bind, ask_today, ask_chat, ret. rewrite Ha.
    cbv zeta. rewrite Hp. reflexivity. }
  split; [exact Hq|]. split; [discriminate|]. split; [reflexivity|].
  rewrite (respond_nonempty W g l h Hl), Hm, Hc.
  destruct rt; [| |congruence]; rewrite Hq; reflexivity.
Qed.

Lemma null_answer_fails_the_turn_witness :
  respond null_query Demo.cached (Some (one_message "a heist film")) []
  = (Response 500 (ErrorBody "Failed to complete the response."),
     [Chat (QueryRequest Movie [("horror", "27")] "2024-05-01"
                         (VStr "a heist film"));
      Chat (ClassifyRequest (VStr "a heist film"))]).
Proof.
  refine (proj2 (proj2 (proj2
    (null_answer_fails_the_turn null_query Demo.cached
       (one_message "a heist film") (VStr "a heist film") Movie
       [("horror", "27")] "null" [] _ _ _ _ _ _ _ _)))).
  - discriminate.
  - reflexivity.
  - reflexivity.
  - discriminate.
  - reflexivity.
  - reflexivity.
  - reflexivity.
Defined.

(** C7.  On a recommendation turn on which the resolution steps of
    [fetchFromTMDB] do not raise and the address of the discovery
    request can be built (the request is issued), and the catalog
    rejects that request: [fetchFromTMDB] returns the empty array, the
    rejected request being the last call it makes and made once;
    [refineResultsWithAI] returns the fixed sentence for the media kind
    and makes no call; the handler responds 200 with that sentence and
    the empty result list, and makes no call after the rejected
    request. *)
Theorem discovery_failure_still_answers
  (W : World) (g : genres) (l : list value) (userMessage : value)
  (rt : request_type) (q : value) (o1 o2 : obj) (url : string)
  (h h1 h2 h3 h4 : trace) :
  l <> [] ->
  last_content l = Some userMessage ->
  classifyRequest W userMessage h = (rt, h1) ->
  rt <> NoType ->
  generateTMDBQuery W g userMessage rt h1 = (q, h2) ->
  q <> VNull ->
  resolve_cast W (fields_of q) h2 = (Some o1, h3) ->
  resolve_keywords W o1 h3 = (Some o2, h4) ->
  discover_url W rt o2 (language_of (fields_of q)) = Some url ->
  http_get W h4 url = None ->
  fetchFromTMDB W q rt h2 = (Some (VArr [], requery q o2), Get url :: h4) /\
  refineResultsWithAI W userMessage (VArr []) rt (Get url :: h4)
  = (no_matches rt, Get url :: h4) /\
  respond W g (Some l) h
  = (Response 200 (Recommendation (no_matches rt) (VArr []) (requery q o2) rt),
     Get url :: h4) /\
  no_matches Movie
  = "I couldn't find any movies matching your criteria. Please try a different request." /\
  no_matches Tv
  = "I couldn't find any TV shows matching your criteria. Please try a different request.".
Proof.
  intros Hl Hm Hc Hrt Hq Hnull Hcast Hkw Hurl Hget.
  assert (Hf : fetchFromTMDB W q rt h2
               = (Some (VArr [], requery q o2), Get url :: h4)).
  { assert (G :
      (cast <- resolve_cast W (fields_of q) ;;
       match cast with
       | None => ret None
       | Some o1 =>
           kw <- resolve_keywords W o1 ;;
           match kw with
           | None => ret None
           | Some o2 =>
               match discover_url W rt o2 (language_of (fields_of q)) with
               | None => ret None
               | Some baseUrl =>
                   resp <- ask_get W baseUrl ;;
                   ret (Some (results_of rt resp, requery q o2))
               end
           end
       end) h2 = (Some (VArr [], requery q o2), Get url :: h4)).
    { unfold bind. rewrite Hcast, Hkw, Hurl.
      unfold ask_get, ret. rewrite Hget. reflexivity. }
    unfold fetchFromTMDB. destruct q; try exact G. congruence. }
  split; [exact Hf|]. split; [reflexivity|].
  split; [|split; reflexivity].
  rewrite (respond_nonempty W g l h Hl), Hm, Hc.
  destruct rt; [| |congruence]; rewrite Hq, Hf; reflexivity.
Qed.

Lemma discovery_failure_still_answers_witness :
  respond (Demo.answering "movie") Demo.cached
          (Some (one_message "a heist film")) []
  = (Response 200 (Recommendation (no_matches Movie) (VArr [])
                                  (VObj []) Movie),
     [Get "https://api.themoviedb.org/3/discover/movie?api_key=KEY&language=en-US";
      Chat (QueryRequest Movie [("horror", "27")] "2024-05-01"
                         (VStr "a heist film"));
      Chat (ClassifyRequest (VStr "a heist film"))]).
Proof.
  refine (proj1 (proj2 (proj2
    (discovery_failure_still_answers (Demo.answering "movie") Demo.cached
       (one_message "a heist film") (VStr "a heist film") Movie
       (VObj []) [] []
       "https://api.themoviedb.org/3/discover/movie?api_key=KEY&language=en-US"
       [] _ _ _ _ _ _ _ _ _ _ _ _ _ _)))).
  - discriminate.
  - reflexivity.
  - reflexivity.
  - discriminate.
  - reflexivity.
  - discriminate.
  - reflexivity.
  - reflexivity.
  - reflexivity.
  - reflexivity.
Defined.

(** ** The handler *)

Lemma last_message (l : list value) :
  l <> [] -> Forall is_message l -> is_message (last l VUndef).
Proof.
  induction l as [|x r IH]; [congruence|].
  intros _ HF. inversion HF; subst.
  destruct r as [|y r']; [assumption|].
  apply IH; [discriminate|assumption].
Qed.

(** What does hold of the validation.  A body whose [messages] is
    absent or empty is answered 400 with the error text and no call is
    made; a history made of message objects is never answered 400: its
    status is 200, or 500 when a pipeline step raised. *)
Theorem no_messages_rejected
  (W : World) (g : genres) (h : trace) (messages : option (list value)) :
  (messages = None \/ messages = Some [] ->
   respond W g messages h
   = (Response 400 (ErrorBody "No messages provided"), h))
  /\
  (forall l, messages = Some l -> l <> [] -> Forall is_message l ->
     status_of (fst (respond W g messages h)) = Some 200%Z \/
     fst (respond W g messages h)
     = Response 500 (ErrorBody "Failed to complete the response.")).
Proof.
  split.
  - intros [-> | ->]; reflexivity.
  - intros l -> Hl HF.
    pose proof (last_message l Hl HF) as Hm.
    remember (respond W g (Some l) h) as r eqn:Er.
    rewrite (respond_nonempty W g l h Hl) in Er. unfold last_content in Er.
    destruct (last l VUndef) as [| | | | | |o]; try contradiction.
    simpl field in Er. cbv iota in Er.
    destruct (classifyRequest W (own o "content") h) as [[| |] h1].
    + destruct (generateTMDBQuery W g (own o "content") Movie h1) as [q h2].
      destruct (fetchFromTMDB W q Movie h2) as [[[res q']|] h3].
      * destruct (refineResultsWithAI W (own o "content") res Movie h3).
        subst r. left; reflexivity.
      * subst r. right; reflexivity.
    + destruct (generateTMDBQuery W g (own o "content") Tv h1) as [q h2].
      destruct (fetchFromTMDB W q Tv h2) as [[[res q']|] h3].
      * destruct (refineResultsWithAI W (own o "content") res Tv h3).
        subst r. left; reflexivity.
      * subst r. right; reflexivity.
    + destruct (generateNormalResponse W l h1). subst r. left; reflexivity.
Qed.

Lemma no_messages_rejected_witness :
  respond Demo.catalog Demo.cached (Some []) []
  = (Response 400 (ErrorBody "No messages provided"), []) /\
  (status_of (fst (respond Demo.catalog Demo.cached
                     (Some (one_message "hello")) [])) = Some 200%Z \/
   fst (respond Demo.catalog Demo.cached (Some (one_message "hello")) [])
   = Response 500 (ErrorBody "Failed to complete the response.")).
Proof.
  split.
  - apply (proj1 (no_messages_rejected Demo.catalog Demo.cached []
                    (Some []))).
    right; reflexivity.
  - apply (proj2 (no_messages_rejected Demo.catalog Demo.cached []
                    (Some (one_message "hello")))
             (one_message "hello") eq_refl).
    + discriminate.
    + repeat constructor.
Defined.

(** The remaining way out of the handler: the last element of the
    history is [null], and reading its [content] raises before the
    [try] is entered. *)
Example null_message_unhandled :
  respond Demo.catalog Demo.cached (Some [VNull]) [] = (Unhandled, []).
Proof. reflexivity. Qed.

(** C9 (the code departs from the claim).  A history whose last
    element is [null] is not empty and passes the validation; reading
    the [content] of that element raises before the [try] is entered.
    Whatever the world, the cache and the earlier messages, the handler
    then makes no call and sends neither its 400 nor its 500: its
    promise rejects. *)
Theorem null_message_escapes_handler
  (W : World) (g : genres) (h : trace) (earlier : list value) :
  let messages := (earlier ++ [VNull])%list in
  messages <> [] /\
  respond W g (Some messages) h = (Unhandled, h) /\
  status_of (fst (respond W g (Some messages) h)) = None /\
  fst (respond W g (Some messages) h)
  <> Response 400 (ErrorBody "No messages provided") /\
  fst (respond W g (Some messages) h)
  <> Response 500 (ErrorBody "Failed to complete the response.").
Proof.
  cbv zeta.
  assert (Hl : (earlier ++ [VNull])%list <> []).
  { intros E. apply app_eq_nil in E. destruct E as [_ E]. discriminate E. }
  assert (E : respond W g (Some (earlier ++ [VNull])%list) h = (Unhandled, h)).
  { rewrite (respond_nonempty W g _ h Hl). unfold last_content.
    rewrite last_last. reflexivity. }
  split; [exact Hl|]. split; [exact E|]. rewrite E.
  split; [reflexivity|]. split; discriminate.
Qed.

(** C10.  For two histories that are not empty and whose last elements
    have the same content: when the classifier's answer to that content
    opens the recommendation path, the handler behaves the same on
    both, response and calls made; when it does not, the call that
    follows carries the whole history.  The general path can tell two
    such histories apart. *)
Theorem recommendation_reads_last_message
  (W : World) (g : genres) (h : trace) (l1 l2 : list value) :
  l1 <> [] -> l2 <> [] ->
  last_content l1 = last_content l2 ->
  ((forall m, last_content l1 = Some m ->
              fst (classifyRequest W m h) <> NoType) ->
   respond W g (Some l1) h = respond W g (Some l2) h)
  /\
  (forall m, last_content l1 = Some m ->
             fst (classifyRequest W m h) = NoType ->
   exists out,
     respond W g (Some l1) h
     = (out, Chat (NormalRequest l1) :: Chat (ClassifyRequest m) :: h))
  /\
  (exists W' a b,
     a <> [] /\ b <> [] /\ last_content a = last_content b /\
     fst (respond W' g (Some a) h) <> fst (respond W' g (Some b) h)).
Proof.
  intros H1 H2 Hlast. split; [|split].
  - intros Hrec.
    rewrite (respond_nonempty W g l1 h H1), (respond_nonempty W g l2 h H2).
    rewrite <- Hlast.
    destruct (last_content l1) as [m|]; [|reflexivity].
    specialize (Hrec m eq_refl).
    destruct (classifyRequest W m h) as [[| |] h1]; simpl in Hrec;
      [reflexivity|reflexivity|congruence].
  - intros m Hm Hc. rewrite (respond_nonempty W g l1 h H1), Hm.
    unfold classifyRequest, bind, ask_chat in Hc |- *.
    destruct (chat W h (ClassifyRequest m)) as [c|]; simpl in Hc |- *.
    + rewrite Hc. unfold generateNormalResponse, bind, ask_chat.
      destruct (chat W _ (NormalRequest l1)); eexists; reflexivity.
    + unfold generateNormalResponse, bind, ask_chat.
      destruct (chat W _ (NormalRequest l1)); eexists; reflexivity.
  - exists history_aware, (one_message "hi"),
      (VObj [("role", VStr "user"); ("content", VStr "earlier")]
       :: one_message "hi").
    split; [discriminate|]. split; [discriminate|].
    split; [reflexivity|]. simpl. discriminate.
Qed.

Lemma recommendation_reads_last_message_witness :
  respond (Demo.answering "tv") Demo.cached (Some (one_message "a sitcom")) []
  = respond (Demo.answering "tv") Demo.cached
      (Some (VObj [("role", VStr "user"); ("content", VStr "earlier")]
             :: one_message "a sitcom")) [].
Proof.
  apply (proj1 (recommendation_reads_last_message (Demo.answering "tv")
                  Demo.cached [] (one_message "a sitcom")
                  (VObj [("role", VStr "user"); ("content", VStr "earlier")]
                   :: one_message "a sitcom")
                  ltac:(discriminate) ltac:(discriminate) eq_refl)).
  intros m Hm. inversion Hm; subst. simpl. discriminate.
Defined.

(** ** The genre cache *)

Example genre_map_ex :
  genre_map_of (VObj [("genres",
     VArr [VObj [("id", VNum 28); ("name", VStr "Action")];
           VObj [("id", VNum 878); ("name", VStr "Science Fiction")]])])
  = Some [("action", VNum 28); ("science fiction", VNum 878)] /\
  genre_map_of (VObj [("genres",
     VArr [VObj [("id", VNum 28); ("name", VStr "Action")];
           VObj [("id", VNum 12)]])]) = None /\
  genre_map_of (VObj [("status_message", VStr "Invalid API key")]) = None.
Proof. repeat split; reflexivity. Qed.

(** C2, as stated, fails when the film taxonomy is fetched and the
    series taxonomy is not: the refresh has failed, and the cached film
    mapping has been replaced all the same. *)
Lemma refresh_half_replaces :
  let after := fst (fetchGenresFromTMDB Demo.half_catalog Demo.cached []) in
  http_get Demo.half_catalog [Get (genre_url Demo.half_catalog "movie")]
           (genre_url Demo.half_catalog "tv") = None /\
  movieGenreMap Demo.cached = [("horror", VNum 27)] /\
  movieGenreMap after = [("comedy", VNum 35)] /\
  tvGenreMap after = tvGenreMap Demo.cached /\
  after <> Demo.cached.
Proof. cbv zeta. repeat split; try reflexivity. discriminate. Qed.

(** C2 (amended).  Each mapping is replaced as a whole, by the complete
    mapping reduced from its own response, and only there: when the
    film response is missing or cannot be reduced, both mappings stay;
    when the film response is reduced and the series response is not,
    the film mapping is the new one and the series mapping stays; when
    both are reduced, both are the new ones. *)
Theorem refresh_replaces_each_map (W : World) (g : genres) (h : trace) :
  let film := reduced (http_get W h (genre_url W "movie")) in
  let series :=
    reduced (http_get W (Get (genre_url W "movie") :: h) (genre_url W "tv")) in
  let after := fst (fetchGenresFromTMDB W g h) in
  (film = None -> after = g) /\
  (forall m, film = Some m -> series = None ->
     movieGenreMap after = m /\ tvGenreMap after = tvGenreMap g) /\
  (forall m t, film = Some m -> series = Some t ->
     movieGenreMap after = m /\ tvGenreMap after = t).
Proof.
  cbv zeta. unfold fetchGenresFromTMDB, bind, ask_get, ret, reduced.
  destruct (http_get W h (genre_url W "movie")) as [d|]; simpl.
  - destruct (genre_map_of d) as [m|]; simpl.
    + destruct (http_get W _ (genre_url W "tv")) as [d'|]; simpl.
      * destruct (genre_map_of d') as [t|]; simpl.
        -- split; [discriminate|]. split; [discriminate|].
           intros m' t' Hm Ht. inversion Hm; inversion Ht; subst. auto.
        -- split; [discriminate|]. split; [|discriminate].
           intros m' Hm _. inversion Hm; subst. auto.
      * split; [discriminate|]. split; [|discriminate].
        intros m' Hm _. inversion Hm; subst. auto.
    + split; [reflexivity|]. split; discriminate.
  - split; [reflexivity|]. split; discriminate.
Qed.

Lemma refresh_replaces_each_map_witness :
  fst (fetchGenresFromTMDB Demo.quiet Demo.cached []) = Demo.cached /\
  movieGenreMap (fst (fetchGenresFromTMDB Demo.half_catalog Demo.cached []))
  = [("comedy", VNum 35)] /\
  tvGenreMap (fst (fetchGenresFromTMDB Demo.half_catalog Demo.cached []))
  = [("drama", VNum 18)].
Proof.
  split.
  - apply (proj1 (refresh_replaces_each_map Demo.quiet Demo.cached [])).
    reflexivity.
  - apply (proj1 (proj2 (refresh_replaces_each_map Demo.half_catalog
                           Demo.cached []))).
    + reflexivity.
    + reflexivity.
Defined.

(** ** Sanitizing the model's answer *)

Lemma all_space_app (a b : string) :
  all_space (a ++ b) = all_space a && all_space b.
Proof.
  induction a as [|x a IH]; simpl; [reflexivity|].
  rewrite IH. now rewrite andb_assoc.
Qed.

Lemma trimStart_spaces (ws s : string) :
  all_space ws = true -> trimStart (ws ++ s) = trimStart s.
Proof.
  induction ws as [|x ws IH]; simpl; [reflexivity|].
  intros H. apply andb_prop in H. destruct H as [Hx Hws].
  rewrite Hx. auto.
Qed.

Lemma trimEnd_spaces (ws : string) :
  all_space ws = true -> trimEnd ws = EmptyString.
Proof.
  induction ws as [|x ws IH]; simpl; [reflexivity|].
  intros H. apply andb_prop in H. destruct H as [Hx Hws].
  rewrite (IH Hws), Hx. reflexivity.
Qed.

Lemma trimEnd_app_spaces (b ws : string) :
  all_space ws = true -> trimEnd (b ++ ws) = trimEnd b.
Proof.
  intros H. induction b as [|x b IH]; simpl.
  - now apply trimEnd_spaces.
  - now rewrite IH.
Qed.

Lemma trimStart_length (s : string) : String.length (trimStart s) <= String.length s.
Proof.
  induction s as [|x s IH]; simpl; [lia|].
  destruct (is_space x); simpl; lia.
Qed.

Lemma trimEnd_length (s : string) : String.length (trimEnd s) <= String.length s.
Proof.
  induction s as [|x s IH]; simpl; [lia|].
  destruct (is_space x && is_empty (trimEnd s)); simpl; lia.
Qed.

(** A text that [trim] leaves alone has no white space at either end. *)
Lemma trim_fixed (b : string) :
  trim b = b -> trimStart b = b /\ trimEnd b = b.
Proof.
  unfold trim. destruct b as [|x b]; [auto|].
  simpl trimStart. destruct (is_space x) eqn:E.
  - intros H. exfalso.
    pose proof (trimEnd_length (trimStart b)) as L1.
    pose proof (trimStart_length b) as L2.
    rewrite H in L1. simpl in L1. lia.
  - auto.
Qed.

Lemma trimStart_fixed_app (b s : string) :
  b <> EmptyString -> trimStart b = b -> trimStart (b ++ s) = b ++ s.
Proof.
  destruct b as [|x b]; [congruence|]. intros _. simpl.
  destruct (is_space x) eqn:E; [|reflexivity].
  intros H. exfalso. pose proof (trimStart_length b) as L.
  rewrite H in L. simpl in L. lia.
Qed.

Lemma replace_fence_open_head (s : string) :
  replace_fence_open (fence_open ++ s) = trimStart s.
Proof. reflexivity. Qed.

Lemma fence_not_space (y w : string) : all_space (y ++ fence ++ w) = false.
Proof.
  rewrite all_space_app. simpl. now rewrite andb_false_r.
Qed.

Lemma strip_fence (s : string) :
  strip_prefix fence s =
  match s with
  | String a (String b (String c r)) =>
      if Ascii.eqb backtick a then
        if Ascii.eqb backtick b then
          if Ascii.eqb backtick c then Some r else None
        else None
      else None
  | _ => None
  end.
Proof.
  unfold fence. destruct s as [|a [|b [|c r]]]; cbn [strip_prefix];
    fold backtick; try reflexivity.
  - destruct (Ascii.eqb backtick a); reflexivity.
  - destruct (Ascii.eqb backtick a); [|reflexivity].
    destruct (Ascii.eqb backtick b); reflexivity.
Qed.

(** Before its end the closing fence never matches: what follows the
    three backticks tried still holds a backtick. *)
Lemma closes_here_inside (c : ascii) (x w : string) :
  closes_here (String c (x ++ fence ++ w)) = false.
Proof.
  unfold closes_here.
  destruct x as [|d [|e x]].
  - change (String c (EmptyString ++ fence ++ w))
      with (String c (String backtick (String backtick (String backtick w)))).
    rewrite strip_fence, !Ascii.eqb_refl.
    destruct (Ascii.eqb backtick c); reflexivity.
  - change (String c (String d EmptyString ++ fence ++ w))
      with (String c (String d (String backtick (String backtick (String backtick w))))).
    rewrite strip_fence, !Ascii.eqb_refl.
    destruct (Ascii.eqb backtick c); [|reflexivity].
    destruct (Ascii.eqb backtick d); reflexivity.
  - change (String c (String d (String e x) ++ fence ++ w))
      with (String c (String d (String e (x ++ fence ++ w)))).
    rewrite strip_fence.
    destruct (Ascii.eqb backtick c); [|reflexivity].
    destruct (Ascii.eqb backtick d); [|reflexivity].
    destruct (Ascii.eqb backtick e); [|reflexivity].
    apply fence_not_space.
Qed.

Lemma replace_fence_close_end (x w : string) :
  all_space w = true -> replace_fence_close (x ++ fence ++ w) = x.
Proof.
  intros Hw. induction x as [|c x IH].
  - change (EmptyString ++ fence ++ w)
      with (String backtick (String backtick (String backtick w))).
    unfold replace_fence_close, closes_here. rewrite strip_fence.
    rewrite !Ascii.eqb_refl, Hw. reflexivity.
  - change (String c x ++ fence ++ w) with (String c (x ++ fence ++ w)).
    unfold replace_fence_close; fold replace_fence_close.
    rewrite closes_here_inside, IH. reflexivity.
Qed.

(** A text without three backticks in a row goes through both fence
    replacements unchanged. *)
Lemma strip_fence_open (s : string) :
  strip_prefix fence s = None -> strip_prefix fence_open s = None.
Proof.
  rewrite strip_fence. unfold fence_open.
  destruct s as [|a [|b [|c r]]]; cbn [strip_prefix]; fold backtick.
  - reflexivity.
  - destruct (Ascii.eqb backtick a); reflexivity.
  - destruct (Ascii.eqb backtick a); [|reflexivity].
    destruct (Ascii.eqb backtick b); reflexivity.
  - destruct (Ascii.eqb backtick a); [|reflexivity].
    destruct (Ascii.eqb backtick b); [|reflexivity].
    destruct (Ascii.eqb backtick c); [discriminate|reflexivity].
Qed.

Lemma occurs_cons (p : string) (c : ascii) (t : string) :
  occurs p (String c t) = false ->
  strip_prefix p (String c t) = None /\ occurs p t = false.
Proof.
  simpl occurs.
  destruct (strip_prefix p (String c t)); [discriminate|auto].
Qed.

Lemma no_fence_open (s : string) :
  occurs fence s = false -> replace_fence_open s = s.
Proof.
  induction s as [|c t IH]; [reflexivity|].
  intros H. apply occurs_cons in H. destruct H as [Hp Ho].
  unfold replace_fence_open; fold replace_fence_open.
  rewrite (strip_fence_open _ Hp), (IH Ho). reflexivity.
Qed.

Lemma no_fence_close (s : string) :
  occurs fence s = false -> replace_fence_close s = s.
Proof.
  induction s as [|c t IH]; [reflexivity|].
  intros H. apply occurs_cons in H. destruct H as [Hp Ho].
  unfold replace_fence_close; fold replace_fence_close.
  unfold closes_here. rewrite Hp, (IH Ho). reflexivity.
Qed.

(** *** Line comments *)

Lemma strip_slashes (s : string) :
  strip_prefix "//" s =
  match s with
  | String a (String b r) =>
      if Ascii.eqb slash a then
        if Ascii.eqb slash b then Some r else None
      else None
  | _ => None
  end.
Proof.
  destruct s as [|a [|b r]]; cbn [strip_prefix]; fold slash;
    try reflexivity.
  destruct (Ascii.eqb slash a); reflexivity.
Qed.

Lemma comments_cons (c : ascii) (t : string) :
  strip_prefix "//" (String c t) = None ->
  replace_comments_from false (String c t)
  = String c (replace_comments_from false t).
Proof.
  intros H. unfold replace_comments_from; fold replace_comments_from.
  rewrite H. reflexivity.
Qed.

Lemma replace_comments_clean (b : string) :
  occurs "//" b = false -> replace_comments b = b.
Proof.
  unfold replace_comments. induction b as [|c t IH]; [reflexivity|].
  intros H. apply occurs_cons in H. destruct H as [Hp Ho].
  rewrite (comments_cons c t Hp), (IH Ho). reflexivity.
Qed.

Lemma comments_code (c s : string) :
  code_piece c = true ->
  replace_comments_from false (c ++ s) = c ++ replace_comments_from false s.
Proof.
  unfold code_piece. induction c as [|x t IH]; [reflexivity|].
  intros H. apply negb_true_iff in H.
  change (String x t ++ "/") with (String x (t ++ "/")) in H.
  apply occurs_cons in H. destruct H as [Hp Ho].
  change (String x t ++ s) with (String x (t ++ s)).
  rewrite comments_cons.
  - rewrite IH; [reflexivity|]. now rewrite Ho.
  - destruct t as [|y t'].
    + change (EmptyString ++ "/") with (String slash EmptyString) in Hp.
      change (EmptyString ++ s) with s.
      rewrite strip_slashes in Hp |- *.
      rewrite Ascii.eqb_refl in Hp.
      destruct (Ascii.eqb slash x); [discriminate|].
      destruct s; reflexivity.
    + change (String y t' ++ "/") with (String y (t' ++ "/")) in Hp.
      change (String y t' ++ s) with (String y (t' ++ s)).
      rewrite strip_slashes in Hp |- *.
      destruct (Ascii.eqb slash x); [|reflexivity].
      destruct (Ascii.eqb slash y); [discriminate|reflexivity].
Qed.

Lemma comments_open (r : string) :
  replace_comments_from false ("//" ++ r) = replace_comments_from true r.
Proof. reflexivity. Qed.

Lemma comments_inside (m : string) (nl : ascii) (rest : string) :
  no_line_terminator m = true ->
  is_line_terminator nl = true ->
  replace_comments_from true (m ++ String nl rest)
  = String nl (replace_comments_from false rest).
Proof.
  intros Hm Hnl. induction m as [|x m IH].
  - simpl. rewrite Hnl. reflexivity.
  - simpl in Hm. apply andb_prop in Hm. destruct Hm as [Hx Hm].
    apply negb_true_iff in Hx.
    change (String x m ++ String nl rest) with (String x (m ++ String nl rest)).
    unfold replace_comments_from; fold replace_comments_from.
    rewrite Hx. exact (IH Hm).
Qed.

Lemma comments_to_end (m : string) :
  no_line_terminator m = true -> replace_comments_from true m = EmptyString.
Proof.
  induction m as [|x m IH]; [reflexivity|].
  intros Hm. simpl in Hm. apply andb_prop in Hm. destruct Hm as [Hx Hm].
  apply negb_true_iff in Hx.
  unfold replace_comments_from; fold replace_comments_from.
  rewrite Hx. exact (IH Hm).
Qed.

(** The replacement removes the comment of every annotated line and
    nothing else. *)
Lemma comments_annotated (lines : list (string * string)) (last : string) :
  well_annotated lines = true ->
  replace_comments (annotate lines last)
  = bare lines (replace_comments last).
Proof.
  unfold replace_comments.
  induction lines as [|[c m] r IH]; [reflexivity|].
  intros H. simpl in H. apply andb_prop in H. destruct H as [Hcm Hr].
  apply andb_prop in Hcm. destruct Hcm as [Hc Hm].
  cbn [annotate bare].
  rewrite (comments_code c _ Hc), comments_open.
  rewrite (comments_inside m LF _ Hm eq_refl), (IH Hr). reflexivity.
Qed.

Lemma comment_at_end (c m : string) :
  code_piece c = true -> no_line_terminator m = true ->
  replace_comments (c ++ "//" ++ m) = c.
Proof.
  intros Hc Hm. unfold replace_comments.
  rewrite (comments_code c _ Hc), comments_open, (comments_to_end m Hm).
  apply append_empty_r.
Qed.

(** *** Fenced and annotated answers *)

Example fenced_json_ex :
  sanitizeAIResponse (fenced fence_open (json_query "x")) = json_query "x".
Proof. reflexivity. Qed.

(** A [//] inside a string of the object is taken for a comment. *)
Example slashes_in_a_string :
  sanitizeAIResponse (json_query "a//b") = "{" ++ quoted "query" ++ ":" ++ String DQ "a".
Proof. reflexivity. Qed.

(** A fence that is opened without the [json] tag: the opening
    backticks stay, the text no longer parses, and the query is the
    empty one instead of the object's. *)
Lemma plain_fence_not_stripped :
  let b := json_query "x" in
  sanitizeAIResponse (fenced fence b) = fence ++ String LF b /\
  sanitizeAIResponse (fenced fence b) <> b /\
  fst (generateTMDBQuery (parsing b) Demo.cached (VStr "x") Movie [])
  = VObj [("query", VStr "x")] /\
  fst (generateTMDBQuery (parsing (fenced fence b)) Demo.cached
         (VStr "x") Movie [])
  = VObj [].
Proof.
  cbv zeta. split; [reflexivity|]. split; [|split; reflexivity].
  vm_compute. discriminate.
Qed.

(** What does hold of the sanitizer.  For a text [b] that is not empty
    and has no white space at either end, wrapped in a fence that opens
    with the [json] tag: the sanitizer returns [b] with every [//] and what follows it
    on its line removed, trimmed; the same as for [b] given bare when
    [b] holds no three backticks in a row.  When [b] holds no [//] that
    is [b] itself, and the parser is handed the bare text; when [b] is
    made of lines that end in a comment and hold no [//] before it,
    that is the text of the lines without their comments. *)
Theorem sanitize_json_fence_and_comments (b ws1 ws2 ws3 : string) :
  all_space ws1 = true -> all_space ws2 = true -> all_space ws3 = true ->
  b <> EmptyString -> trim b = b ->
  let wrapped := fence_open ++ ws1 ++ b ++ ws2 ++ fence ++ ws3 in
  let out := trim (replace_comments b) in
  sanitizeAIResponse wrapped = out /\
  (occurs fence b = false -> sanitizeAIResponse b = out) /\
  (occurs "//" b = false ->
     out = b /\
     forall W, JSON_parse W (sanitizeAIResponse wrapped) = JSON_parse W b) /\
  (forall lines last,
     well_annotated lines = true -> occurs "//" last = false ->
     b = annotate lines last -> out = trim (bare lines last)).
Proof.
  intros H1 H2 H3 Hb Ht. cbv zeta.
  destruct (trim_fixed b Ht) as [Hs He].
  assert (Hw : sanitizeAIResponse (fence_open ++ ws1 ++ b ++ ws2 ++ fence ++ ws3)
               = trim (replace_comments b)).
  { unfold sanitizeAIResponse.
    rewrite replace_fence_open_head, (trimStart_spaces ws1 _ H1).
    rewrite (trimStart_fixed_app b _ Hb Hs).
    rewrite <- append_assoc, (replace_fence_close_end (b ++ ws2) ws3 H3).
    unfold trim at 2.
    rewrite (trimStart_fixed_app b ws2 Hb Hs), (trimEnd_app_spaces b ws2 H2), He.
    reflexivity. }
  split; [exact Hw|]. split; [|split].
  - intros Hf. unfold sanitizeAIResponse.
    rewrite (no_fence_open b Hf), (no_fence_close b Hf), Ht. reflexivity.
  - intros Hc. rewrite (replace_comments_clean b Hc), Ht.
    split; [reflexivity|]. intros W. rewrite Hw.
    rewrite (replace_comments_clean b Hc), Ht. reflexivity.
  - intros lines last Hl Hlast ->.
    rewrite (comments_annotated lines last Hl).
    rewrite (replace_comments_clean last Hlast). reflexivity.
Qed.

Lemma sanitize_json_fence_and_comments_witness :
  sanitizeAIResponse
    (fence_open ++ String LF (commented_query ++ String LF (fence ++ EmptyString)))
  = "{" ++ String LF (quoted "query" ++ ":" ++ quoted "x" ++ String LF "}").
Proof.
  pose proof (sanitize_json_fence_and_comments commented_query
                (String LF EmptyString) (String LF EmptyString) EmptyString
                eq_refl eq_refl eq_refl ltac:(discriminate) eq_refl) as H.
  cbv zeta in H. destruct H as [H _]. exact H.
Defined.

(** *** A fence without the tag *)

Lemma trimEnd_keeps (x y : string) :
  y <> EmptyString -> trimEnd y = y -> trimEnd (x ++ y) = x ++ y.
Proof.
  intros Hy He. induction x as [|c x IH]; [exact He|].
  change (String c x ++ y) with (String c (x ++ y)).
  cbn [trimEnd]. rewrite IH.
  destruct (x ++ y)%string eqn:E.
  - destruct x; [simpl in E; congruence|discriminate E].
  - cbn [is_empty]. now rewrite andb_false_r.
Qed.

Lemma strip_fence_before_newline (s w : string) :
  strip_prefix fence s = None ->
  strip_prefix fence (s ++ String LF w) = None.
Proof.
  rewrite !strip_fence.
  destruct s as [|a [|b [|c r]]]; cbn [append]; intros H.
  - destruct w as [|? [|? ?]]; reflexivity.
  - destruct (Ascii.eqb backtick a); [|destruct w; reflexivity].
    destruct w as [|? ?]; reflexivity.
  - destruct (Ascii.eqb backtick a); [|reflexivity].
    destruct (Ascii.eqb backtick b); reflexivity.
  - destruct (Ascii.eqb backtick a); [|reflexivity].
    destruct (Ascii.eqb backtick b); [|reflexivity].
    destruct (Ascii.eqb backtick c); [discriminate H|reflexivity].
Qed.

(** Without three backticks in a row in [b], the opening pattern finds
    nothing in [b] followed by a line feed and a closing fence. *)
Lemma no_fence_open_before_close (b : string) :
  occurs fence b = false ->
  replace_fence_open (b ++ String LF fence) = b ++ String LF fence.
Proof.
  induction b as [|c t IH]; [reflexivity|].
  intros H. apply occurs_cons in H. destruct H as [Hp Ho].
  change (String c t ++ String LF fence) with (String c (t ++ String LF fence)).
  pose proof (strip_fence_open _
                (strip_fence_before_newline (String c t) fence Hp)) as Hs.
  change (String c t ++ String LF fence)
    with (String c (t ++ String LF fence)) in Hs.
  unfold replace_fence_open; fold replace_fence_open.
  rewrite Hs. now rewrite (IH Ho).
Qed.

Lemma plain_fence_sanitized (b : string) :
  b <> EmptyString -> trim b = b ->
  occurs fence b = false -> occurs "//" b = false ->
  sanitizeAIResponse (fenced fence b) = fence ++ String LF b.
Proof.
  intros Hb Ht Hf Hc. destruct (trim_fixed b Ht) as [_ He].
  assert (Hopen : replace_fence_open (fenced fence b) = fenced fence b).
  { unfold fenced.
    change (replace_fence_open (fence ++ String LF (b ++ String LF fence)))
      with (fence ++ String LF (replace_fence_open (b ++ String LF fence))).
    now rewrite (no_fence_open_before_close b Hf). }
  assert (Hclose : replace_fence_close (fenced fence b)
                   = fence ++ String LF (b ++ String LF EmptyString)).
  { unfold fenced.
    replace (fence ++ String LF (b ++ String LF fence))
      with ((fence ++ String LF (b ++ String LF EmptyString))
            ++ fence ++ EmptyString).
    - now apply replace_fence_close_end.
    - rewrite append_assoc. cbn [append]. rewrite append_assoc.
      reflexivity. }
  assert (Htrim : forall w, all_space w = true ->
            trim (fence ++ String LF (b ++ w)) = fence ++ String LF b).
  { intros w Hw. unfold trim.
    change (trimStart (fence ++ String LF (b ++ w)))
      with (fence ++ String LF (b ++ w)).
    replace (fence ++ String LF (b ++ w))
      with ((fence ++ String LF b) ++ w)
      by (rewrite append_assoc; reflexivity).
    rewrite (trimEnd_app_spaces _ w Hw).
    replace (fence ++ String LF b)
      with ((fence ++ String LF EmptyString) ++ b) by reflexivity.
    now apply trimEnd_keeps. }
  unfold sanitizeAIResponse. rewrite Hopen, Hclose.
  rewrite (Htrim (String LF EmptyString) eq_refl).
  assert (Hcom : replace_comments (fence ++ String LF b) = fence ++ String LF b).
  { apply replace_comments_clean.
    change (occurs "//" (fence ++ String LF b)) with (occurs "//" b).
    exact Hc. }
  rewrite Hcom.
  rewrite <- (append_empty_r b) at 1.
  exact (Htrim EmptyString eq_refl).
Qed.

Lemma trim_fenced (opening b : string) :
  trimStart opening = opening -> opening <> EmptyString ->
  trim (fenced opening b) = fenced opening b.
Proof.
  intros Hs Ho. unfold trim, fenced.
  rewrite (trimStart_fixed_app opening _ Ho Hs).
  replace (opening ++ String LF (b ++ String LF fence))
    with ((opening ++ String LF (b ++ String LF EmptyString)) ++ fence).
  - apply trimEnd_keeps; [discriminate|reflexivity].
  - rewrite append_assoc. cbn [append]. rewrite append_assoc. reflexivity.
Qed.

(** C8 (the code departs from the claim).  Of a fence that is opened
    without the [json] tag the sanitizer strips the closing half only:
    the text handed to the parser still starts with the three
    backticks, which no JSON text does, and when the parser rejects it
    the query that the model had written is replaced by the empty one.
    The same text in a fence with the tag comes out bare. *)
Theorem plain_fence_half_stripped
  (W : World) (g : genres) (userMessage : value) (rt : request_type)
  (listing : list (string * string)) (b : string) (h : trace) :
  b <> EmptyString -> trim b = b ->
  occurs fence b = false -> occurs "//" b = false ->
  genre_listing (match rt with Movie => movieGenreMap g
                             | _ => tvGenreMap g end) = Some listing ->
  chat W h (QueryRequest rt listing (today W h) userMessage)
  = Some (fenced fence b) ->
  sanitizeAIResponse (fenced fence b) = fence ++ String LF b /\
  sanitizeAIResponse (fenced fence_open b) = b /\
  fst (generateTMDBQuery W g userMessage rt h)
  = match JSON_parse W (fence ++ String LF b) with
    | Some q => q
    | None => empty_query
    end.
Proof.
  intros Hb Ht Hf Hc Hg Ha.
  pose proof (plain_fence_sanitized b Hb Ht Hf Hc) as Hplain.
  split; [exact Hplain|]. split.
  - pose proof (sanitize_json_fence_and_comments b
                  (String LF EmptyString) (String LF EmptyString) EmptyString
                  eq_refl eq_refl eq_refl Hb Ht) as H.
    cbv zeta in H. destruct H as [H _].
    unfold fenced.
    change (fence_open ++ String LF (b ++ String LF fence))
      with (fence_open ++ String LF EmptyString ++ b ++
            String LF EmptyString ++ fence ++ EmptyString).
    rewrite H, (replace_comments_clean b Hc). exact Ht.
  - unfold generateTMDBQuery. rewrite Hg.
    unfold bind, ask_today, ask_chat, ret. rewrite Ha. cbv zeta.
    rewrite (trim_fenced fence b eq_refl ltac:(discriminate)), Hplain.
    destruct (JSON_parse W (fence ++ String LF b)); reflexivity.
Qed.

Lemma plain_fence_half_stripped_witness :
  sanitizeAIResponse (fenced fence (json_query "x"))
  = fence ++ String LF (json_query "x") /\
  fst (generateTMDBQuery (parsing (fenced fence (json_query "x")))
         Demo.cached (VStr "x") Movie [])
  = empty_query.
Proof.
  pose proof (plain_fence_half_stripped
                (parsing (fenced fence (json_query "x"))) Demo.cached
                (VStr "x") Movie [("horror", "27")] (json_query "x") []
                ltac:(discriminate) eq_refl eq_refl eq_refl eq_refl eq_refl)
    as (H1 & _ & H3).
  split; [exact H1|exact H3].
Defined.

(* ================================================================== *)
(** * Further properties of the server *)
(* ================================================================== *)

(** ** Addresses and their parameters *)

Lemma lacks_app (c : ascii) (a b : string) :
  lacks c (a ++ b) = lacks c a && lacks c b.
Proof.
  induction a as [|x a IH]; simpl; [reflexivity|].
  rewrite IH. now rewrite andb_assoc.
Qed.

Lemma split_lacks (c : ascii) (a : string) :
  lacks c a = true -> split c a = [a].
Proof.
  induction a as [|x a IH]; simpl; [reflexivity|].
  intros H. apply andb_prop in H. destruct H as [Hx Ha].
  apply negb_true_iff in Hx. rewrite Hx, (IH Ha). reflexivity.
Qed.

Lemma split_app (c : ascii) (a b : string) :
  lacks c a = true -> split c (a ++ String c b) = a :: split c b.
Proof.
  induction a as [|x a IH]; simpl.
  - intros _. rewrite Ascii.eqb_refl. reflexivity.
  - intros H. apply andb_prop in H. destruct H as [Hx Ha].
    apply negb_true_iff in Hx. rewrite Hx, (IH Ha). reflexivity.
Qed.

Lemma param_name_of (n v : string) :
  lacks "=" n = true -> param_name (n ++ "=" ++ v) = n.
Proof.
  intros H. unfold param_name.
  change (n ++ "=" ++ v) with (n ++ String "=" v).
  now rewrite (split_app "=" n v H).
Qed.

(** An encoded character is unreserved, a percent sign or a hexadecimal
    digit: it is neither of the two separators. *)
Lemma encode_char_lacks (x : ascii) :
  lacks "&" (encode_char x) = true /\ lacks "=" (encode_char x) = true.
Proof.
  destruct x as [[] [] [] [] [] [] [] []]; split; reflexivity.
Qed.

Lemma encode_lacks (s : string) :
  lacks "&" (encodeURIComponent s) = true /\
  lacks "=" (encodeURIComponent s) = true.
Proof.
  induction s as [|x s [IH1 IH2]]; [split; reflexivity|].
  cbn [encodeURIComponent]. rewrite !lacks_app, IH1, IH2.
  destruct (encode_char_lacks x) as [-> ->]. split; reflexivity.
Qed.

Lemma encode_char_lacks_hash (x : ascii) : lacks "#" (encode_char x) = true.
Proof. destruct x as [[] [] [] [] [] [] [] []]; reflexivity. Qed.

Lemma encode_lacks_hash (s : string) : lacks "#" (encodeURIComponent s) = true.
Proof.
  induction s as [|x s IH]; [reflexivity|].
  cbn [encodeURIComponent]. now rewrite lacks_app, IH, encode_char_lacks_hash.
Qed.



(** X2.  When the credential and the language printed into it hold
    neither [&] nor [#], the address of a person search has the four
    parameters [api_key], [query], [language] and [include_adult] and
    no other, whatever the name, and it holds no [#]: no part of it is
    a fragment that the request would leave behind. *)
Theorem person_search_parameters (W : World) (name language : string) :
  lacks "&" (TMDB_API_KEY W) = true ->
  lacks "#" (TMDB_API_KEY W) = true ->
  lacks "&" language = true ->
  lacks "#" language = true ->
  sent_names (person_url W name language)
  = ["api_key"; "query"; "language"; "include_adult"] /\
  lacks "#" (person_url W name language) = true.
Proof.
  intros HK HKh HL HLh. split.
  - unfold sent_names, person_url.
    change (query_of _)
      with (Some ("api_key=" ++ TMDB_API_KEY W ++
                  String "&" ("query=" ++ encodeURIComponent name ++
                  String "&" ("language=" ++ language ++
                  String "&" "include_adult=false")))).
    cbv iota. rewrite <- append_assoc.
    rewrite split_app by (rewrite lacks_app, HK; reflexivity).
    rewrite <- append_assoc.
    rewrite split_app
      by (rewrite lacks_app; destruct (encode_lacks name) as [-> _];
          reflexivity).
    rewrite <- append_assoc.
    rewrite split_app by (rewrite lacks_app, HL; reflexivity).
    cbn [map].
    change ("api_key=" ++ TMDB_API_KEY W)
      with ("api_key" ++ "=" ++ TMDB_API_KEY W).
    change ("query=" ++ encodeURIComponent name)
      with ("query" ++ "=" ++ encodeURIComponent name).
    change ("language=" ++ language) with ("language" ++ "=" ++ language).
    rewrite !param_name_of by reflexivity.
    reflexivity.
  - unfold person_url.
    rewrite !lacks_app, HKh, HLh, encode_lacks_hash. reflexivity.
Qed.

Lemma person_search_parameters_witness :
  sent_names (person_url Demo.catalog "Tom & Jerry #1" "en-US")
  = ["api_key"; "query"; "language"; "include_adult"] /\
  lacks "#" (person_url Demo.catalog "Tom & Jerry #1" "en-US") = true.
Proof.
  apply (person_search_parameters Demo.catalog "Tom & Jerry #1" "en-US");
    reflexivity.
Defined.

(** Without the proviso the language, which is printed as it is, can
    cut the address short: after a [#] the rest is fragment. *)
Example language_opens_a_fragment :
  person_url Demo.catalog "Tom Hanks" "en#"
  = "https://api.themoviedb.org/3/search/person?api_key=KEY&query=Tom%20Hanks&language=en#&include_adult=false".
Proof. reflexivity. Qed.

Lemma append_params_appended (ps : list (string * string * value)) (url : string) :
  append_params url ps =
  match appended ps with
  | Some tail => Some (url ++ tail)
  | None => None
  end.
Proof.
  revert url.
  induction ps as [|[[k t] v] r IH]; intros url;
    cbn [append_params appended].
  - now rewrite append_empty_r.
  - destruct (to_string v) as [s|]; [|reflexivity].
    rewrite IH. destruct (appended r) as [rest|]; [|reflexivity].
    f_equal. rewrite append_assoc. f_equal.
    change ("&" ++ t ++ "=" ++ encodeURIComponent s)
      with (String "&" (t ++ "=" ++ encodeURIComponent s)).
    change ("&" ++ t ++ "=" ++ encodeURIComponent s ++ rest)
      with (String "&" (t ++ "=" ++ encodeURIComponent s ++ rest)).
    cbn [append]. f_equal. rewrite append_assoc. reflexivity.
Qed.

Lemma assoc_in (l : list (string * string)) (k t : string) :
  assoc l k = Some t -> In t (map snd l).
Proof.
  induction l as [|[k' t'] r IH]; simpl; [discriminate|].
  destruct (String.eqb k' k).
  - intros E. inversion E. now left.
  - intros E. right. exact (IH E).
Qed.

Lemma mappings_names_clean (t : string) :
  In t (map snd mappings) -> lacks "&" t = true /\ lacks "=" t = true.
Proof.
  intros H.
  assert (F : forallb (fun t => lacks "&" t && lacks "=" t)
                      (map snd mappings) = true) by reflexivity.
  rewrite forallb_forall in F. apply andb_prop. exact (F t H).
Qed.

Lemma recognized_key (o : obj) (k t : string) (v : value) :
  In (k, t, v) (recognized o) -> In k (map fst o).
Proof.
  induction o as [|[k' v'] r IH]; simpl; [tauto|].
  destruct (mappings_lookup k') as [t'|]; [|intros H; right; exact (IH H)].
  destruct (truthy v'); [|intros H; right; exact (IH H)].
  intros [H|H]; [inversion H; now left|right; exact (IH H)].
Qed.

Lemma recognized_plain (o : obj) (k t : string) (v : value) :
  plain_keys o -> In (k, t, v) (recognized o) -> In t (map snd mappings).
Proof.
  intros Hp Hin. unfold plain_keys in Hp. rewrite Forall_forall in Hp.
  pose proof (Hp k (recognized_key o k t v Hin)) as Hk.
  destruct (recognized_from_mappings o k t v Hk Hin) as (A & _ & _).
  exact (assoc_in mappings k t A).
Qed.

(** The pieces between the [&] of an appended text carry the catalog
    names, in order. *)
Lemma appended_names (ps : list (string * string * value)) :
  (forall k t v, In (k, t, v) ps -> In t (map snd mappings)) ->
  forall tail a,
    appended ps = Some tail -> lacks "&" a = true ->
    exists pieces,
      split "&" (a ++ tail) = a :: pieces /\
      map param_name pieces = catalog_names ps.
Proof.
  induction ps as [|[[k t] v] r IH]; intros Hps tail a Ht Ha.
  - simpl in Ht. inversion Ht; subst. rewrite append_empty_r.
    exists []. split; [now apply split_lacks|reflexivity].
  - simpl in Ht.
    destruct (to_string v) as [s|]; [|discriminate].
    destruct (appended r) as [rest|] eqn:Er; [|discriminate].
    inversion Ht; subst tail.
    destruct (mappings_names_clean t (Hps k t v (or_introl eq_refl)))
      as [Tamp Teq].
    change (a ++ "&" ++ t ++ "=" ++ encodeURIComponent s ++ rest)
      with (a ++ String "&" (t ++ "=" ++ encodeURIComponent s ++ rest)).
    rewrite (split_app "&" a _ Ha).
    assert (Hpiece : lacks "&" (t ++ "=" ++ encodeURIComponent s) = true).
    { rewrite !lacks_app, Tamp. destruct (encode_lacks s) as [-> _].
      reflexivity. }
    destruct (IH (fun k' t' v' H => Hps k' t' v' (or_intror H))
                 rest (t ++ "=" ++ encodeURIComponent s) eq_refl Hpiece)
      as (pieces & Hsplit & Hnames).
    assert (E : t ++ "=" ++ encodeURIComponent s ++ rest
                = (t ++ "=" ++ encodeURIComponent s) ++ rest).
    { rewrite append_assoc. f_equal. }
    change (t ++ String "=" (encodeURIComponent s ++ rest))
      with (t ++ "=" ++ encodeURIComponent s ++ rest).
    rewrite E, Hsplit. eexists. split; [reflexivity|].
    cbn [map catalog_names fst snd]. rewrite (param_name_of t _ Teq).
    f_equal. exact Hnames.
Qed.

Lemma query_of_discover (rt : request_type) (q : string) :
  query_of ("https://api.themoviedb.org/3/" ++ endpoint rt ++ "?" ++ q)
  = Some q.
Proof. destruct rt; reflexivity. Qed.

Lemma mappings_names_lack_hash (t : string) :
  In t (map snd mappings) -> lacks "#" t = true.
Proof.
  intros H.
  assert (F : forallb (lacks "#") (map snd mappings) = true) by reflexivity.
  rewrite forallb_forall in F. exact (F t H).
Qed.

Lemma appended_lacks_hash (ps : list (string * string * value)) :
  (forall k t v, In (k, t, v) ps -> In t (map snd mappings)) ->
  forall tail, appended ps = Some tail -> lacks "#" tail = true.
Proof.
  induction ps as [|[[k t] v] r IH]; intros Hps tail Ht.
  - simpl in Ht. now inversion Ht.
  - simpl in Ht.
    destruct (to_string v) as [s|]; [|discriminate].
    destruct (appended r) as [rest|] eqn:Er; [|discriminate].
    inversion Ht; subst tail.
    change (lacks "#" (t ++ String "=" (encodeURIComponent s ++ rest)) = true).
    rewrite lacks_app.
    change (lacks "#" (String "=" (encodeURIComponent s ++ rest)))
      with (lacks "#" (encodeURIComponent s ++ rest)).
    rewrite lacks_app.
    rewrite (mappings_names_lack_hash t (Hps k t v (or_introl eq_refl))).
    rewrite encode_lacks_hash.
    rewrite (IH (fun k' t' v' H => Hps k' t' v' (or_intror H)) rest eq_refl).
    reflexivity.
Qed.

(** X3.  For a query none of whose keys is a member of
    [Object.prototype], and a credential and a language whose printed
    forms hold neither [&] nor [#]: the parameters of the discovery
    address are [api_key], [language] and then, in the order of the
    query, the catalog names that the allow-list gives for its truthy
    recognized fields; every name in the address is one the allow-list
    stands for; and the address holds no [#], so that no part of it is
    a fragment that the request would leave behind. *)
Theorem discover_parameters
  (W : World) (rt : request_type) (o : obj) (l url : string) :
  plain_keys o ->
  lacks "&" (TMDB_API_KEY W) = true ->
  lacks "#" (TMDB_API_KEY W) = true ->
  to_string (language_of o) = Some l ->
  lacks "&" l = true ->
  lacks "#" l = true ->
  discover_url W rt o (language_of o) = Some url ->
  sent_names url = "api_key" :: "language" :: catalog_names (recognized o) /\
  incl (sent_names url) upstream_names /\
  lacks "#" url = true.
Proof.
  intros Hp HK HKh Hl Hamp Hhash Hu.
  unfold discover_url in Hu. rewrite Hl, append_params_appended in Hu.
  destruct (appended (recognized o)) as [tail|] eqn:Et; [|discriminate].
  assert (Hurl : url = ("https://api.themoviedb.org/3/" ++ endpoint rt ++
                        "?api_key=" ++ TMDB_API_KEY W ++ "&language=" ++ l)
                       ++ tail) by congruence.
  clear Hu. subst url.
  assert (Hnames : sent_names
            (("https://api.themoviedb.org/3/" ++ endpoint rt ++ "?api_key=" ++
              TMDB_API_KEY W ++ "&language=" ++ l) ++ tail)
          = "api_key" :: "language" :: catalog_names (recognized o)).
  { unfold sent_names.
    replace (("https://api.themoviedb.org/3/" ++ endpoint rt ++ "?api_key=" ++
              TMDB_API_KEY W ++ "&language=" ++ l) ++ tail)
      with ("https://api.themoviedb.org/3/" ++ endpoint rt ++ "?" ++
            ("api_key=" ++ TMDB_API_KEY W) ++
            String "&" (("language=" ++ l) ++ tail))
      by (rewrite !append_assoc; reflexivity).
    rewrite query_of_discover.
    rewrite split_app by (rewrite lacks_app, HK; reflexivity).
    destruct (appended_names (recognized o)
                (fun k t v => recognized_plain o k t v Hp)
                tail ("language=" ++ l) Et)
      as (pieces & Hsplit & Hn).
    { rewrite lacks_app, Hamp. reflexivity. }
    rewrite Hsplit. cbn [map].
    change ("api_key=" ++ TMDB_API_KEY W)
      with ("api_key" ++ "=" ++ TMDB_API_KEY W).
    change ("language=" ++ l) with ("language" ++ "=" ++ l).
    rewrite !param_name_of by reflexivity.
    now rewrite Hn. }
  split; [exact Hnames|]. split.
  - rewrite Hnames. intros n [<-|[<-|Hn]].
    + left; reflexivity.
    + right; left; reflexivity.
    + right; right. unfold catalog_names in Hn. apply in_map_iff in Hn.
      destruct Hn as ([[k t] v] & <- & Hin).
      exact (recognized_plain o k t v Hp Hin).
  - rewrite !lacks_app, HKh, Hhash.
    rewrite (appended_lacks_hash (recognized o)
               (fun k t v => recognized_plain o k t v Hp) tail Et).
    destruct rt; reflexivity.
Qed.

Lemma discover_parameters_witness :
  sent_names
    "https://api.themoviedb.org/3/discover/tv?api_key=KEY&language=en-US&vote_count.gte=1000&with_genres=27%2C35%26x%3Dy%23z"
  = ["api_key"; "language"; "vote_count.gte"; "with_genres"] /\
  lacks "#"
    "https://api.themoviedb.org/3/discover/tv?api_key=KEY&language=en-US&vote_count.gte=1000&with_genres=27%2C35%26x%3Dy%23z"
  = true.
Proof.
  assert (P : plain_keys sample_query) by (repeat constructor).
  pose proof (discover_parameters Demo.quiet Tv sample_query "en-US" _
                P eq_refl eq_refl eq_refl eq_refl eq_refl eq_refl)
    as (Hn & _ & Hh).
  split; [exact Hn|exact Hh].
Defined.

(** ** Name resolution *)

Lemma pushed_length (W : World) (resp : option value) :
  (List.length (pushed W resp) <= 1)%nat.
Proof.
  unfold pushed. destruct resp as [d|]; [|simpl; lia].
  destruct (first_result_id W d); simpl; lia.
Qed.

(** X4.  For names in the Latin-1 range, the strings of this
    embedding, on which [encodeURIComponent] cannot raise:
    [fetchKeywordIdsByNames] searches every name once, in the order
    given, whatever the earlier searches answered, and makes no other
    call; it returns at most one id per name.  (A name that holds a
    lone surrogate is outside the range: encoding it raises inside the
    [try] and that name is not searched.) *)
Theorem keyword_lookups_one_per_name (W : World) (names : list string)
                                     (h : trace) :
  snd (fetchKeywordIdsByNames W names h)
  = (map Get (rev (map (keyword_url W) names)) ++ h)%list /\
  (List.length (fst (fetchKeywordIdsByNames W names h))
   <= List.length names)%nat.
Proof.
  revert h. induction names as [|n r IH]; intros h.
  - split; [reflexivity|simpl; lia].
  - cbn [fetchKeywordIdsByNames]. unfold bind, ask_get, ret.
    destruct (IH (Get (keyword_url W n) :: h)) as [Ht Hl].
    destruct (fetchKeywordIdsByNames W r (Get (keyword_url W n) :: h))
      as [ids t] eqn:E.
    cbn [fst snd] in *. split.
    + rewrite Ht. cbn [map rev]. rewrite map_app, <- app_assoc.
      reflexivity.
    + rewrite length_app.
      pose proof (pushed_length W (http_get W h (keyword_url W n))).
      simpl. lia.
Qed.

(** X5.  For names in the Latin-1 range, the strings of this
    embedding, on which [encodeURIComponent] cannot raise:
    [fetchActorIdsByNames] searches every name once, in order, with the
    language printed into each address, and returns at most one id per
    name; when the language cannot be printed it makes no search at all
    and returns no id.  (A name that holds a lone surrogate is outside
    the range: encoding it raises inside the [try] and that name is not
    searched.) *)
Theorem actor_lookups_one_per_name (W : World) (names : list string)
                                   (language : value) (h : trace) :
  (forall l, to_string language = Some l ->
     snd (fetchActorIdsByNames W names language h)
     = (map Get (rev (map (fun n => person_url W n l) names)) ++ h)%list /\
     (List.length (fst (fetchActorIdsByNames W names language h))
      <= List.length names)%nat)
  /\
  (to_string language = None ->
     fetchActorIdsByNames W names language h = ([], h)).
Proof.
  split.
  - intros l Hl. revert h. induction names as [|n r IH]; intros h.
    + split; [reflexivity|simpl; lia].
    + cbn [fetchActorIdsByNames]. rewrite Hl. unfold bind, ask_get, ret.
      destruct (IH (Get (person_url W n l) :: h)) as [Ht Hlen].
      destruct (fetchActorIdsByNames W r language (Get (person_url W n l) :: h))
        as [ids t] eqn:E.
      cbn [fst snd] in *. split.
      * rewrite Ht. cbn [map rev]. rewrite map_app, <- app_assoc.
        reflexivity.
      * rewrite length_app.
        pose proof (pushed_length W (http_get W h (person_url W n l))).
        simpl. lia.
  - intros Hl. induction names as [|n r IH]; [reflexivity|].
    cbn [fetchActorIdsByNames]. rewrite Hl. exact IH.
Qed.

Lemma actor_lookups_one_per_name_witness :
  snd (fetchActorIdsByNames Demo.catalog ["Tom Hanks"; "Nobody"]
         (VStr "en-US") [])
  = [Get (person_url Demo.catalog "Nobody" "en-US");
     Get (person_url Demo.catalog "Tom Hanks" "en-US")] /\
  fetchActorIdsByNames Demo.catalog ["Tom Hanks"; "Nobody"]
    (VObj [("toString", VNull)]) [] = ([], []).
Proof.
  split.
  - apply (proj1 (actor_lookups_one_per_name Demo.catalog
                    ["Tom Hanks"; "Nobody"] (VStr "en-US") [])
             "en-US" eq_refl).
  - apply (proj2 (actor_lookups_one_per_name Demo.catalog
                    ["Tom Hanks"; "Nobody"] (VObj [("toString", VNull)]) [])).
    reflexivity.
Defined.

Lemma keyword_ids_steady (W : World) (names : list string) (h : trace) :
  steady W ->
  fst (fetchKeywordIdsByNames W names h)
  = flat_map (keyword_ids_of W []) names.
Proof.
  intros HW. revert h. induction names as [|n r IH]; intros h;
    [reflexivity|].
  cbn [fetchKeywordIdsByNames flat_map]. unfold bind, ask_get, ret.
  specialize (IH (Get (keyword_url W n) :: h)).
  destruct (fetchKeywordIdsByNames W r (Get (keyword_url W n) :: h))
    as [ids t].
  cbn [fst] in *. rewrite IH. unfold keyword_ids_of.
  now rewrite (HW h [] (keyword_url W n)).
Qed.

(** X6.  With a catalog whose answers do not depend on the calls made
    before, each name contributes by itself: the ids are, name after
    name, the id of the first result of that name's search, or nothing
    when the search fails or finds nothing; so the ids of two lists of
    names put end to end are the ids of the first followed by the ids
    of the second. *)
Theorem keyword_ids_compose (W : World) (a b : list string) (h h' : trace) :
  steady W ->
  fst (fetchKeywordIdsByNames W (a ++ b) h)
  = (fst (fetchKeywordIdsByNames W a h)
     ++ fst (fetchKeywordIdsByNames W b h'))%list /\
  fst (fetchKeywordIdsByNames W a h) = flat_map (keyword_ids_of W []) a.
Proof.
  intros HW. split.
  - rewrite !(keyword_ids_steady W _ _ HW). apply flat_map_app.
  - apply (keyword_ids_steady W a h HW).
Qed.

Lemma keyword_ids_compose_witness :
  fst (fetchKeywordIdsByNames Demo.catalog (["zzz"; "heist"] ++ ["heist"]) [])
  = (fst (fetchKeywordIdsByNames Demo.catalog ["zzz"; "heist"] [])
     ++ fst (fetchKeywordIdsByNames Demo.catalog ["heist"] []))%list.
Proof.
  exact (proj1 (keyword_ids_compose Demo.catalog ["zzz"; "heist"] ["heist"]
                  [] [] (fun h1 h2 url => eq_refl))).
Defined.

(** ** The results of a discovery request *)

Lemma stamp_fields (rt : request_type) (x : value) :
  exists o, stamp rt x = VObj o /\
    obj_get o "media_type" = Some (VStr (media_type rt)) /\
    forall k, k <> "media_type" -> obj_get o k = obj_get (spread x) k.
Proof.
  unfold stamp. eexists. split; [reflexivity|]. split.
  - apply obj_get_set_same.
  - intros k Hk. now apply obj_get_set_other.
Qed.

(** X7.  When the catalog answers the discovery request with an array
    of results, [fetchFromTMDB] returns an array of the same length
    whose items are objects, each with [media_type] set to the kind of
    the request ([movie] or [tv]), overwriting one it had, and with
    every other property of the result it comes from. *)
Theorem results_are_stamped (rt : request_type) (data : value)
                            (l : list value) :
  field data "results" = Some (VArr l) ->
  exists l',
    results_of rt (Some data) = VArr l' /\
    List.length l' = List.length l /\
    (media_type rt = "movie" \/ media_type rt = "tv") /\
    forall i x, nth_error l i = Some x ->
      exists o,
        nth_error l' i = Some (VObj o) /\
        obj_get o "media_type" = Some (VStr (media_type rt)) /\
        forall k, k <> "media_type" -> obj_get o k = obj_get (spread x) k.
Proof.
  intros H. exists (map (stamp rt) l). unfold results_of. rewrite H.
  split; [reflexivity|]. split; [apply length_map|].
  split; [destruct rt; auto|].
  intros i x Hx. destruct (stamp_fields rt x) as (o & Eo & Hm & Hk).
  exists o. split; [|split; assumption].
  rewrite nth_error_map, Hx. simpl. now rewrite Eo.
Qed.

Lemma results_are_stamped_witness :
  exists l',
    results_of Tv (Some (VObj [("results",
       VArr [VObj [("media_type", VStr "movie"); ("name", VStr "Dark")]])]))
    = VArr l' /\
    nth_error l' 0 = Some (VObj [("media_type", VStr "tv"); ("name", VStr "Dark")]).
Proof.
  destruct (results_are_stamped Tv
              (VObj [("results",
                 VArr [VObj [("media_type", VStr "movie"); ("name", VStr "Dark")]])])
              [VObj [("media_type", VStr "movie"); ("name", VStr "Dark")]]
              eq_refl) as (l' & E & _).
  exists l'. split; [exact E|]. inversion E. reflexivity.
Defined.

(** ** Refinement *)

(** X8.  Of a list of results that is not empty, only the first five
    reach the refinement: the call made and the answer returned are
    those for the list cut after its fifth item. *)
Theorem refine_reads_first_five (W : World) (msg : value) (l : list value)
                                (rt : request_type) (h : trace) :
  l <> [] ->
  refineResultsWithAI W msg (VArr l) rt h
  = refineResultsWithAI W msg (VArr (firstn 5 l)) rt h.
Proof.
  destruct l as [|x r]; [congruence|]. intros _.
  assert (E : firstn 5 (x :: r) = x :: firstn 4 r) by reflexivity.
  rewrite E.
  change (refineResultsWithAI W msg (VArr (x :: r)) rt h)
    with (refine_call W msg (x :: r) rt h).
  change (refineResultsWithAI W msg (VArr (x :: firstn 4 r)) rt h)
    with (refine_call W msg (x :: firstn 4 r) rt h).
  unfold refine_call. rewrite <- E, firstn_firstn. reflexivity.
Qed.

Lemma refine_reads_first_five_witness :
  refineResultsWithAI (Demo.answering " Watch Dark. ") (VStr "a series")
    (VArr (map (fun n => VObj [("id", VNum n)]) [1; 2; 3; 4; 5; 6; 7]%Z)) Tv []
  = refineResultsWithAI (Demo.answering " Watch Dark. ") (VStr "a series")
    (VArr (map (fun n => VObj [("id", VNum n)]) [1; 2; 3; 4; 5]%Z)) Tv [].
Proof.
  apply (refine_reads_first_five (Demo.answering " Watch Dark. ")
           (VStr "a series")
           (map (fun n => VObj [("id", VNum n)]) [1; 2; 3; 4; 5; 6; 7]%Z)
           Tv []).
  discriminate.
Defined.

(** X9.  [refineResultsWithAI] makes at most one call to the model and
    none to the catalog.  Without a call its answer is the no-matches
    sentence or the apology; with a call it is the apology when the
    call fails and the model's answer, trimmed, when it succeeds. *)
Theorem refine_one_call (W : World) (msg results : value)
                        (rt : request_type) (h : trace) :
  (snd (refineResultsWithAI W msg results rt h) = h /\
   (fst (refineResultsWithAI W msg results rt h) = no_matches rt \/
    fst (refineResultsWithAI W msg results rt h) = refine_apology))
  \/
  (exists text context,
     snd (refineResultsWithAI W msg results rt h)
     = Chat (RefineRequest rt text context) :: h /\
     (List.length context <= 5)%nat /\
     fst (refineResultsWithAI W msg results rt h)
     = match chat W h (RefineRequest rt text context) with
       | Some answer => trim answer
       | None => refine_apology
       end).
Proof.
  assert (L : forall l c, render_items rt l = Some c ->
                          List.length c = List.length l).
  { induction l as [|x r IH]; intros c; simpl.
    - intros E. inversion E. reflexivity.
    - destruct (render_item rt x); [|discriminate].
      destruct (render_items rt r) as [b|]; [|discriminate].
      intros E. inversion E. simpl. now rewrite (IH b eq_refl). }
  destruct results as [| | | |s|l|o];
    try (left; split; [reflexivity|right; reflexivity]).
  - destruct s; left; split;
      first [reflexivity | left; reflexivity | right; reflexivity].
  - destruct l as [|x r];
      [left; split; [reflexivity|left; reflexivity]|].
    change (refineResultsWithAI W msg (VArr (x :: r)) rt h)
      with (refine_call W msg (x :: r) rt h).
    unfold refine_call.
    destruct (render_items rt (firstn 5 (x :: r))) as [c|] eqn:Ec;
      [|left; split; [reflexivity|right; reflexivity]].
    destruct (to_string msg) as [text|];
      [|left; split; [reflexivity|right; reflexivity]].
    right. exists text, c. unfold bind, ask_chat.
    pose proof (L _ _ Ec) as Hlen.
    pose proof (firstn_le_length 5 (x :: r)) as Hf.
    destruct (chat W h (RefineRequest rt text c)); simpl;
      (split; [reflexivity|split; [lia|reflexivity]]).
  - cbn [refineResultsWithAI].
    destruct (own o "length") as [| | |n| | |];
      try (left; split; [reflexivity|right; reflexivity]).
    destruct n; left; split;
      first [reflexivity | left; reflexivity | right; reflexivity].
Qed.

(** ** What [fetchFromTMDB] changes, and when it raises *)

(** X10.  A call of [fetchFromTMDB] that returns has left every field
    of the query object as it was, other than the four it resolves
    ([with_cast], [with_cast_names], [with_keywords],
    [with_keywords_names]); a query that is not an object is returned
    as it is. *)
Theorem fetch_keeps_other_fields
  (W : World) (q : value) (rt : request_type) (h t : trace) (res q' : value) :
  fetchFromTMDB W q rt h = (Some (res, q'), t) ->
  (forall k, ~ In k resolution_fields ->
     obj_get (fields_of q') k = obj_get (fields_of q) k) /\
  ((forall o, q <> VObj o) -> q' = q).
Proof.
  intros E.
  destruct (fetch_steps W q rt h t res q' E)
    as (o1 & h1 & o2 & h2 & url & E1 & E2 & _ & _ & _ & ->).
  split.
  - intros k Hk. unfold resolution_fields in Hk. simpl in Hk.
    assert (K1 : k <> "with_cast") by (intros ->; tauto).
    assert (K2 : k <> "with_cast_names") by (intros ->; tauto).
    assert (K3 : k <> "with_keywords") by (intros ->; tauto).
    assert (K4 : k <> "with_keywords_names") by (intros ->; tauto).
    destruct q; try reflexivity.
    simpl fields_of in *.
    rewrite (resolve_keywords_other W _ _ _ _ k E2 K3 K4).
    exact (resolve_cast_other W _ _ _ _ k E1 K1 K2).
  - intros Hq. destruct q; try reflexivity. exfalso. eapply Hq. reflexivity.
Qed.

Lemma fetch_keeps_other_fields_witness :
  obj_get (fields_of (VObj [("sort_by", VStr "popularity.desc");
                            ("with_cast", VStr "31")])) "sort_by"
  = obj_get (fields_of (VObj [("sort_by", VStr "popularity.desc");
                              ("with_cast_names", VStr "Tom Hanks")])) "sort_by".
Proof.
  refine (proj1 (fetch_keeps_other_fields Demo.catalog
                   (VObj [("sort_by", VStr "popularity.desc");
                          ("with_cast_names", VStr "Tom Hanks")])
                   Movie [] _ (VArr []) _ eq_refl) "sort_by" _).
  simpl. intros H. repeat (destruct H as [H|H]; [discriminate H|]). exact H.
Defined.

(** X11.  [fetchFromTMDB] raises before any request is made when the
    query is [null], and when a name-based cast field is truthy without
    being a string (an array of names, a number). *)
Theorem fetch_raises_before_request
  (W : World) (rt : request_type) (h : trace) :
  fetchFromTMDB W VNull rt h = (None, h) /\
  forall o, truthy (own o "with_cast_names") = true ->
            (forall s, own o "with_cast_names" <> VStr s) ->
            fetchFromTMDB W (VObj o) rt h = (None, h).
Proof.
  split; [reflexivity|].
  intros o Ht Hs. unfold fetchFromTMDB, bind. simpl fields_of.
  unfold resolve_cast. rewrite Ht.
  destruct (own o "with_cast_names") as [| | | |s| |]; try reflexivity.
  exfalso. exact (Hs s eq_refl).
Qed.

Lemma fetch_raises_before_request_witness :
  fetchFromTMDB Demo.catalog
    (VObj [("with_cast_names", VArr [VStr "Tom Hanks"])]) Movie []
  = (None, []).
Proof.
  apply (proj2 (fetch_raises_before_request Demo.catalog Movie [])).
  - reflexivity.
  - intros s. discriminate.
Defined.

(** ** Queries made of strings *)

Lemma scalar_prints (v : value) : scalar v -> exists s, element_string v = Some s.
Proof.
  destruct v as [| |[]| | | |]; simpl; intros H; try contradiction; eauto.
Qed.

Lemma join_scalars (sep : string) (l : list value) :
  Forall scalar l -> exists s, join_values sep l = Some s.
Proof.
  unfold join_values. induction l as [|x r IH]; intros H;
    [exists EmptyString; reflexivity|].
  inversion H as [|? ? Hx Hr]; subst.
  destruct (scalar_prints x Hx) as (e & He).
  destruct (IH Hr) as (rest & Er).
  change (join_with element_string sep (x :: r))
    with (match element_string x, r with
          | None, _ => None
          | Some e, [] => Some e
          | Some e, _ :: _ =>
              match join_with element_string sep r with
              | Some rest => Some (e ++ sep ++ rest)
              | None => None
              end
          end).
  rewrite He. destruct r as [|y r']; [eauto|]. rewrite Er. eauto.
Qed.

Lemma pushed_scalar (W : World) (h : trace) (url : string) :
  scalar_ids W -> Forall scalar (pushed W (http_get W h url)).
Proof.
  intros HW. unfold pushed.
  destruct (http_get W h url) as [d|] eqn:E; [|constructor].
  destruct (first_result_id W d) as [id|] eqn:F; [|constructor].
  constructor; [|constructor]. exact (HW h url d id E F).
Qed.

Lemma keyword_ids_scalar (W : World) (names : list string) (h : trace) :
  scalar_ids W -> Forall scalar (fst (fetchKeywordIdsByNames W names h)).
Proof.
  intros HW. revert h. induction names as [|n r IH]; intros h;
    [constructor|].
  cbn [fetchKeywordIdsByNames]. unfold bind, ask_get, ret.
  specialize (IH (Get (keyword_url W n) :: h)).
  destruct (fetchKeywordIdsByNames W r (Get (keyword_url W n) :: h))
    as [ids t].
  cbn [fst] in *. apply Forall_app. split; [|exact IH].
  now apply pushed_scalar.
Qed.

Lemma actor_ids_scalar (W : World) (names : list string) (language : value)
                       (h : trace) :
  scalar_ids W ->
  Forall scalar (fst (fetchActorIdsByNames W names language h)).
Proof.
  intros HW. revert h. induction names as [|n r IH]; intros h;
    [constructor|].
  cbn [fetchActorIdsByNames].
  destruct (to_string language) as [l|]; [|apply IH].
  unfold bind, ask_get, ret.
  specialize (IH (Get (person_url W n l) :: h)).
  destruct (fetchActorIdsByNames W r language (Get (person_url W n l) :: h))
    as [ids t].
  cbn [fst] in *. apply Forall_app. split; [|exact IH].
  now apply pushed_scalar.
Qed.

Lemma set_add_all_forall (P : value -> Prop) (l seen : list value) :
  Forall P seen -> Forall P l -> Forall P (set_add_all seen l).
Proof.
  revert seen. induction l as [|x r IH]; intros seen Hs Hl; [exact Hs|].
  inversion Hl; subst. simpl. apply IH; [|assumption].
  destruct (existsb (same_value_zero x) seen); [assumption|].
  apply Forall_app. split; [assumption|]. constructor; [assumption|constructor].
Qed.

Lemma string_fields_own (o : obj) (k : string) :
  string_fields o -> own o k = VUndef \/ exists s, own o k = VStr s.
Proof.
  unfold own. induction o as [|[k' v] r IH]; intros H; simpl; [now left|].
  inversion H as [|? ? Hv Hr]; subst.
  destruct (String.eqb k' k); [|exact (IH Hr)].
  right. exact Hv.
Qed.

Lemma string_fields_set (o : obj) (k s : string) :
  string_fields o -> string_fields (obj_set o k (VStr s)).
Proof.
  unfold string_fields. induction o as [|[k' v] r IH]; intros H; simpl.
  - constructor; [simpl; eauto|constructor].
  - inversion H; subst. destruct (String.eqb k' k).
    + constructor; [simpl; eauto|assumption].
    + constructor; [assumption|]. now apply IH.
Qed.

Lemma string_fields_delete (o : obj) (k : string) :
  string_fields o -> string_fields (obj_delete o k).
Proof.
  unfold string_fields. induction o as [|[k' v] r IH]; intros H; simpl;
    [constructor|].
  inversion H; subst. destruct (String.eqb k' k); [now apply IH|].
  constructor; [assumption|]. now apply IH.
Qed.

Lemma string_fields_appended (o : obj) :
  string_fields o -> exists tail, appended (recognized o) = Some tail.
Proof.
  unfold string_fields. induction o as [|[k v] r IH]; intros H; simpl;
    [eauto|].
  inversion H as [|? ? Hv Hr]; subst. destruct (IH Hr) as (tail & Et).
  destruct (mappings_lookup k) as [t|]; [|eauto].
  destruct (truthy v); [|eauto].
  destruct Hv as (s & Hs). simpl in Hs. subst v.
  cbn [appended to_string]. rewrite Et. eauto.
Qed.

Lemma resolve_cast_strings (W : World) (o : obj) (h : trace) :
  scalar_ids W -> string_fields o ->
  exists o1 h1, resolve_cast W o h = (Some o1, h1) /\ string_fields o1.
Proof.
  intros HW Ho. unfold resolve_cast.
  destruct (string_fields_own o "with_cast_names" Ho) as [E|(s & E)];
    rewrite E; [simpl; unfold ret; eauto|].
  destruct (truthy (VStr s)); [|unfold ret; eauto].
  unfold bind.
  pose proof (actor_ids_scalar W (map trim (split "," s)) (language_of o) h HW)
    as Hids.
  destruct (fetchActorIdsByNames W (map trim (split "," s)) (language_of o) h)
    as [ids h1].
  cbn [fst] in Hids. destruct ids as [|i r].
  - unfold ret. eexists; eexists. split; [reflexivity|].
    now apply string_fields_delete.
  - destruct (join_scalars "," (i :: r) Hids) as (j & ->).
    unfold ret. eexists; eexists. split; [reflexivity|].
    now apply string_fields_delete, string_fields_set.
Qed.

Lemma resolve_keywords_strings (W : World) (o : obj) (h : trace) :
  scalar_ids W -> string_fields o ->
  exists o2 h2, resolve_keywords W o h = (Some o2, h2) /\ string_fields o2.
Proof.
  intros HW Ho. unfold resolve_keywords.
  destruct (string_fields_own o "with_keywords_names" Ho) as [E|(s & E)];
    rewrite E; [simpl; unfold ret; eauto|].
  destruct (truthy (VStr s)); [|unfold ret; eauto].
  unfold bind.
  pose proof (keyword_ids_scalar W (map trim (split "," s)) h HW) as Hids.
  destruct (fetchKeywordIdsByNames W (map trim (split "," s)) h) as [ids h1].
  cbn [fst] in Hids. destruct ids as [|i r].
  - unfold ret. eexists; eexists. split; [reflexivity|].
    now apply string_fields_delete.
  - assert (C : exists c,
        (if truthy (own o "with_keywords")
         then match own o "with_keywords" with
              | VStr e => merge_keywords e (i :: r)
              | _ => None
              end
         else join_values "|" (i :: r)) = Some c).
    { destruct (string_fields_own o "with_keywords" Ho) as [K|(e & K)];
        rewrite K.
      - simpl truthy. cbv iota. now apply join_scalars.
      - destruct (truthy (VStr e)); [|now apply join_scalars].
        unfold merge_keywords. apply join_scalars.
        unfold new_Set. apply set_add_all_forall; [constructor|].
        apply Forall_app. split; [|exact Hids].
        apply Forall_forall. intros x Hx. apply in_map_iff in Hx.
        destruct Hx as (y & <- & _). exact I. }
    destruct C as (c & ->).
    unfold ret. eexists; eexists. split; [reflexivity|].
    now apply string_fields_delete, string_fields_set.
Qed.

(** X12.  A query object all of whose fields hold strings in the
    Latin-1 range, the strings of this embedding, on which
    [encodeURIComponent] cannot raise, never makes [fetchFromTMDB]
    raise, provided the ids that the searches yield are scalars
    (numbers, as the catalog has them, or strings): the call returns,
    and the query it leaves still holds strings only.  (A field that
    holds a lone surrogate is outside the range; encoding it at the
    end of the loop over the fields raises.) *)
Theorem fetch_returns_on_strings
  (W : World) (rt : request_type) (o : obj) (h : trace) :
  scalar_ids W ->
  string_fields o ->
  exists res o' t,
    fetchFromTMDB W (VObj o) rt h = (Some (res, VObj o'), t) /\
    string_fields o'.
Proof.
  intros HW Ho. unfold fetchFromTMDB. simpl fields_of. unfold bind.
  destruct (resolve_cast_strings W o h HW Ho) as (o1 & h1 & -> & Ho1).
  destruct (resolve_keywords_strings W o1 h1 HW Ho1) as (o2 & h2 & -> & Ho2).
  unfold discover_url.
  assert (L : exists l, to_string (language_of o) = Some l).
  { unfold language_of.
    destruct (string_fields_own o "language" Ho) as [E|(s & E)]; rewrite E.
    - simpl. eauto.
    - destruct (truthy (VStr s)); simpl; eauto. }
  destruct L as (l & ->). rewrite append_params_appended.
  destruct (string_fields_appended o2 Ho2) as (tail & ->).
  unfold ask_get, ret. simpl requery.
  eexists; eexists; eexists. split; [reflexivity|exact Ho2].
Qed.

Lemma fetch_returns_on_strings_witness :
  exists res o' t,
    fetchFromTMDB Demo.catalog
      (VObj [("with_keywords", VStr "9"); ("with_keywords_names", VStr "heist");
             ("vote_average_gte", VStr "7.0")]) Movie []
    = (Some (res, VObj o'), t) /\
    string_fields o'.
Proof.
  apply (fetch_returns_on_strings Demo.catalog Movie
           [("with_keywords", VStr "9"); ("with_keywords_names", VStr "heist");
            ("vote_average_gte", VStr "7.0")] []).
  - intros h url data id. unfold Demo.catalog, http_get.
    destruct (String.eqb url (keyword_url Demo.quiet "heist")).
    + intros E F. inversion E; subst. inversion F; subst. exact I.
    + destruct (String.eqb url (person_url Demo.quiet "Tom Hanks" "en-US")).
      * intros E F. inversion E; subst. inversion F; subst. exact I.
      * destruct (String.eqb url (person_url Demo.quiet "Nobody" "en-US")).
        -- intros E F. inversion E; subst. inversion F.
        -- discriminate.
  - repeat constructor; simpl; eauto.
Defined.

(** ** The handler's failures and its general path *)

(** X13.  The handler answers 500 only on a recommendation turn on
    which [fetchFromTMDB] raised; the calls made are those up to that
    point, and the body is the fixed error text. *)
Theorem failure_comes_from_fetch
  (W : World) (g : genres) (l : list value) (h t : trace) (body : payload) :
  l <> [] ->
  respond W g (Some l) h = (Response 500 body, t) ->
  exists m rt h1 q h2,
    last_content l = Some m /\
    classifyRequest W m h = (rt, h1) /\ rt <> NoType /\
    generateTMDBQuery W g m rt h1 = (q, h2) /\
    fetchFromTMDB W q rt h2 = (None, t) /\
    body = ErrorBody "Failed to complete the response.".
Proof.
  intros Hl. rewrite (respond_nonempty W g l h Hl).
  destruct (last_content l) as [m|]; [|discriminate].
  destruct (classifyRequest W m h) as [rt h1] eqn:Ec.
  destruct rt.
  - destruct (generateTMDBQuery W g m Movie h1) as [q h2] eqn:Eq.
    destruct (fetchFromTMDB W q Movie h2) as [[[res q']|] h3] eqn:Ef.
    + destruct (refineResultsWithAI W m res Movie h3). discriminate.
    + intros E. inversion E; subst.
      exists m, Movie, h1, q, h2. repeat split; try assumption; discriminate.
  - destruct (generateTMDBQuery W g m Tv h1) as [q h2] eqn:Eq.
    destruct (fetchFromTMDB W q Tv h2) as [[[res q']|] h3] eqn:Ef.
    + destruct (refineResultsWithAI W m res Tv h3). discriminate.
    + intros E. inversion E; subst.
      exists m, Tv, h1, q, h2. repeat split; try assumption; discriminate.
  - destruct (generateNormalResponse W l h1). discriminate.
Qed.

Lemma failure_comes_from_fetch_witness :
  exists m rt h1 q h2,
    last_content (one_message "x") = Some m /\
    classifyRequest null_query m [] = (rt, h1) /\ rt <> NoType /\
    generateTMDBQuery null_query Demo.cached m rt h1 = (q, h2) /\
    fetchFromTMDB null_query q rt h2
    = (None,
       [Chat (QueryRequest Movie [("horror", "27")] "2024-05-01" (VStr "x"));
        Chat (ClassifyRequest (VStr "x"))]) /\
    ErrorBody "Failed to complete the response."
    = ErrorBody "Failed to complete the response.".
Proof.
  apply (failure_comes_from_fetch null_query Demo.cached (one_message "x") []).
  - discriminate.
  - reflexivity.
Defined.

(** X14.  On a turn that the classifier does not take for a
    recommendation request, the handler answers 200 with the general
    responder's answer, trimmed, or with the fixed apology when that
    call fails; it makes the two model calls and no catalog request. *)
Theorem general_turn (W : World) (g : genres) (l : list value) (m : value)
                     (h : trace) :
  l <> [] ->
  last_content l = Some m ->
  fst (classifyRequest W m h) = NoType ->
  let t1 := Chat (ClassifyRequest m) :: h in
  respond W g (Some l) h
  = (Response 200
       (Plain match chat W t1 (NormalRequest l) with
              | Some answer => trim answer
              | None => normal_apology
              end),
     Chat (NormalRequest l) :: t1) /\
  urls (snd (respond W g (Some l) h)) = urls h.
Proof.
  intros Hl Hm Hc. cbv zeta.
  assert (E : respond W g (Some l) h
              = (Response 200
                   (Plain match chat W (Chat (ClassifyRequest m) :: h)
                                  (NormalRequest l) with
                          | Some answer => trim answer
                          | None => normal_apology
                          end),
                 Chat (NormalRequest l) :: Chat (ClassifyRequest m) :: h)).
  { rewrite (respond_nonempty W g l h Hl), Hm.
    unfold classifyRequest, bind, ask_chat in Hc |- *.
    destruct (chat W h (ClassifyRequest m)) as [c|]; simpl in Hc |- *.
    - rewrite Hc. unfold generateNormalResponse, bind, ask_chat.
      destruct (chat W _ (NormalRequest l)); reflexivity.
    - unfold generateNormalResponse, bind, ask_chat.
      destruct (chat W _ (NormalRequest l)); reflexivity. }
  split; [exact E|]. rewrite E. reflexivity.
Qed.

Lemma general_turn_witness :
  respond Demo.quiet Demo.cached (Some (one_message "hello")) []
  = (Response 200 (Plain normal_apology),
     [Chat (NormalRequest (one_message "hello"));
      Chat (ClassifyRequest (VStr "hello"))]).
Proof.
  exact (proj1 (general_turn Demo.quiet Demo.cached (one_message "hello")
                  (VStr "hello") [] ltac:(discriminate) eq_refl eq_refl)).
Defined.

(** ** The genre mappings *)

Lemma lower_char_idem (c : ascii) : lower_char (lower_char c) = lower_char c.
Proof. destruct c as [[] [] [] [] [] [] [] []]; reflexivity. Qed.

Lemma toLowerCase_idem (s : string) : toLowerCase (toLowerCase s) = toLowerCase s.
Proof.
  induction s as [|c s IH]; simpl; [reflexivity|].
  now rewrite lower_char_idem, IH.
Qed.



Lemma genre_entry_key (i i' : bool) (map map' : obj) (genre : value) :
  genre_entry i map genre = Some (i', map') ->
  exists key,
    genre_key genre = Some key /\ toLowerCase key = key /\
    ((key = "__proto__" /\ i = true /\ map' = map /\
      i' = keeps_accessor (own (fields_of genre) "id")) \/
     ((key <> "__proto__" \/ i = false) /\ i' = i /\
      map' = obj_set map key (own (fields_of genre) "id"))).
Proof.
  unfold genre_entry, genre_key.
  destruct genre as [| | | | | |g]; try discriminate.
  destruct (own g "name") as [| | | |name| |]; try discriminate.
  intros E. exists (toLowerCase name).
  split; [reflexivity|]. split; [apply toLowerCase_idem|].
  simpl fields_of.
  destruct (String.eqb_spec (toLowerCase name) "__proto__") as [Hk|Hk];
    destruct i; simpl in E; inversion E; subst; auto.
Qed.

(** X15.  The reduction of a genre list succeeds exactly when the
    response holds an array under [genres] and every element of it is
    an object whose [name] is a string. *)
Theorem genre_map_exists_iff (data : value) :
  (exists m, genre_map_of data = Some m) <->
  (exists l, field data "genres" = Some (VArr l) /\ Forall named l).
Proof.
  assert (R : forall l i m, (exists m', reduce_genres i m l = Some m')
                            <-> Forall named l).
  { induction l as [|x r IH]; intros i m; simpl.
    - split; [constructor|eauto].
    - split.
      + intros (m' & E).
        destruct (genre_entry i m x) as [[i1 m1]|] eqn:Ex; [|discriminate].
        constructor; [|apply (IH i1 m1); eauto].
        unfold genre_entry in Ex.
        destruct x as [| | | | | |g]; try discriminate.
        destruct (own g "name") as [| | | |name| |] eqn:En; try discriminate.
        exists g, name. auto.
      + intros H. inversion H as [|? ? (g & name & -> & En) Hr]; subst.
        unfold genre_entry. rewrite En.
        destruct (String.eqb (toLowerCase name) "__proto__" && i);
          apply IH; assumption. }
  unfold genre_map_of. split.
  - intros (m & E).
    destruct (field data "genres") as [[| | | | |l|]|] eqn:F; try discriminate.
    exists l. split; [reflexivity|]. apply (R l true []). eauto.
  - intros (l & -> & H). apply (R l true []). exact H.
Qed.





(** After an id [null] under the name [__proto__] the accumulator has
    no prototype, and the next assignment to [__proto__] creates the
    own property. *)
Example proto_becomes_a_key :
  genre_map_of (VObj [("genres",
     VArr [VObj [("id", VNull); ("name", VStr "__proto__")];
           VObj [("id", VNum 7); ("name", VStr "__proto__")]])])
  = Some [("__proto__", VNum 7)] /\
  genre_map_of (VObj [("genres",
     VArr [VObj [("id", VNum 7); ("name", VStr "__proto__")];
           VObj [("id", VNum 28); ("name", VStr "Action")]])])
  = Some [("action", VNum 28)].
Proof. split; reflexivity. Qed.

Lemma reduce_genres_miss (l : list value) (i : bool) (m m' : obj)
                         (key : string) :
  reduce_genres i m l = Some m' ->
  Forall (fun g => genre_key g <> Some key) l ->
  obj_get m' key = obj_get m key.
Proof.
  revert i m. induction l as [|x r IH]; intros i m E H; simpl in E.
  - now inversion E.
  - destruct (genre_entry i m x) as [[i1 m1]|] eqn:Ex; [|discriminate].
    inversion H as [|? ? Hx Hr]; subst.
    rewrite (IH i1 m1 E Hr).
    destruct (genre_entry_key i i1 m m1 x Ex)
      as (k & Hk & _ & [(_ & _ & -> & _)|(_ & _ & ->)]); [reflexivity|].
    apply obj_get_set_other. intros ->. now apply Hx.
Qed.

Lemma reduce_genres_last (before after : list value) (g : obj)
                         (name : string) (i : bool) (m m' : obj) :
  reduce_genres i m (before ++ VObj g :: after) = Some m' ->
  own g "name" = VStr name ->
  toLowerCase name <> "__proto__" ->
  Forall (fun x => genre_key x <> Some (toLowerCase name)) after ->
  obj_get m' (toLowerCase name) = Some (own g "id").
Proof.
  intros E Hn Hp Ha. revert i m E.
  induction before as [|x r IH]; intros i m E.
  - simpl in E. unfold genre_entry in E. rewrite Hn in E.
    destruct (String.eqb_spec (toLowerCase name) "__proto__") as [|_];
      [contradiction|].
    simpl in E.
    rewrite (reduce_genres_miss after _ _ m' (toLowerCase name) E Ha).
    apply obj_get_set_same.
  - simpl in E.
    destruct (genre_entry i m x) as [[i1 m1]|]; [|discriminate].
    exact (IH i1 m1 E).
Qed.

(** X17.  Looking a genre up by its lower-cased name finds the id of
    the last genre of the list that has this name, whatever the case of
    its letters there; genres with another name do not disturb it. *)
Theorem genre_lookup_last_wins
  (data : value) (m : obj) (before after : list value) (g : obj)
  (name : string) :
  field data "genres" = Some (VArr (before ++ VObj g :: after)) ->
  genre_map_of data = Some m ->
  own g "name" = VStr name ->
  toLowerCase name <> "__proto__" ->
  Forall (fun x => genre_key x <> Some (toLowerCase name)) after ->
  obj_get m (toLowerCase name) = Some (own g "id").
Proof.
  intros F E Hn Hp Ha. unfold genre_map_of in E. rewrite F in E.
  exact (reduce_genres_last before after g name true [] m E Hn Hp Ha).
Qed.

Lemma genre_lookup_last_wins_witness :
  obj_get [("action", VNum 2); ("drama", VNum 18)] (toLowerCase "ACTION")
  = Some (VNum 2).
Proof.
  refine (genre_lookup_last_wins
    (VObj [("genres",
       VArr [VObj [("id", VNum 1); ("name", VStr "Action")];
             VObj [("id", VNum 2); ("name", VStr "ACTION")];
             VObj [("id", VNum 18); ("name", VStr "Drama")]])])
    [("action", VNum 2); ("drama", VNum 18)]
    [VObj [("id", VNum 1); ("name", VStr "Action")]]
    [VObj [("id", VNum 18); ("name", VStr "Drama")]]
    [("id", VNum 2); ("name", VStr "ACTION")] "ACTION"
    eq_refl eq_refl eq_refl _ _).
  - discriminate.
  - repeat constructor. discriminate.
Defined.

(** X18.  A refresh asks for the film list first and for the series
    list only when the film list has been reduced: when the film
    request fails or its response cannot be reduced, the series list is
    not requested and both mappings stay; otherwise exactly the two
    requests are made, in that order. *)
Theorem refresh_requests (W : World) (g : genres) (h : trace) :
  (reduced (http_get W h (genre_url W "movie")) = None ->
   fetchGenresFromTMDB W g h = (g, Get (genre_url W "movie") :: h))
  /\
  (forall m, reduced (http_get W h (genre_url W "movie")) = Some m ->
   snd (fetchGenresFromTMDB W g h)
   = Get (genre_url W "tv") :: Get (genre_url W "movie") :: h).
Proof.
  unfold fetchGenresFromTMDB, bind, ask_get, ret, reduced.
  destruct (http_get W h (genre_url W "movie")) as [d|].
  - destruct (genre_map_of d) as [m|].
    + split; [discriminate|]. intros m' _.
      destruct (http_get W _ (genre_url W "tv")) as [d'|]; [|reflexivity].
      destruct (genre_map_of d'); reflexivity.
    + split; [reflexivity|discriminate].
  - split; [reflexivity|discriminate].
Qed.

Lemma refresh_requests_witness :
  fetchGenresFromTMDB Demo.quiet Demo.cached []
  = (Demo.cached, [Get (genre_url Demo.quiet "movie")]) /\
  snd (fetchGenresFromTMDB Demo.half_catalog Demo.cached [])
  = [Get (genre_url Demo.half_catalog "tv");
     Get (genre_url Demo.half_catalog "movie")].
Proof.
  split.
  - apply (proj1 (refresh_requests Demo.quiet Demo.cached [])). reflexivity.
  - apply (proj2 (refresh_requests Demo.half_catalog Demo.cached [])
             [("comedy", VNum 35)]).
    reflexivity.
Defined.

(** ** What the sanitizer leaves *)

Lemma strip_prefix_app (p a r w : string) :
  strip_prefix p a = Some r -> strip_prefix p (a ++ w) = Some (r ++ w).
Proof.
  revert a. induction p as [|x p IH]; intros a; cbn [strip_prefix].
  - intros E. now inversion E.
  - destruct a as [|y a]; [discriminate|].
    change (String y a ++ w) with (String y (a ++ w)). cbv iota.
    destruct (Ascii.eqb x y); [apply IH|discriminate].
Qed.

Lemma occurs_step (p : string) (c : ascii) (t : string) :
  occurs p (String c t) =
  match strip_prefix p (String c t) with
  | Some _ => true
  | None => occurs p t
  end.
Proof. reflexivity. Qed.

Lemma occurs_app_l (p a w : string) :
  occurs p a = true -> occurs p (a ++ w) = true.
Proof.
  induction a as [|c a IH].
  - simpl. destruct (strip_prefix p EmptyString) as [r|] eqn:E;
      [|discriminate].
    intros _. destruct p; [|discriminate].
    destruct w; reflexivity.
  - rewrite occurs_step.
    change (String c a ++ w) with (String c (a ++ w)). rewrite occurs_step.
    destruct (strip_prefix p (String c a)) as [r|] eqn:E.
    + intros _.
      change (String c (a ++ w)) with (String c a ++ w).
      now rewrite (strip_prefix_app p _ r w E).
    + intros H. rewrite (IH H).
      destruct (strip_prefix p (String c (a ++ w))); reflexivity.
Qed.

Lemma occurs_app_r (p w t : string) :
  occurs p t = true -> occurs p (w ++ t) = true.
Proof.
  intros H. induction w as [|c w IH]; [exact H|].
  change (String c w ++ t) with (String c (w ++ t)).
  rewrite occurs_step, IH.
  destruct (strip_prefix p (String c (w ++ t))); reflexivity.
Qed.

Lemma trimStart_suffix (s : string) : exists w, s = w ++ trimStart s.
Proof.
  induction s as [|c s (w & IH)]; [exists EmptyString; reflexivity|].
  simpl. destruct (is_space c).
  - exists (String c w). simpl. now rewrite <- IH.
  - exists EmptyString. reflexivity.
Qed.

Lemma trimEnd_prefix (s : string) : exists w, s = trimEnd s ++ w.
Proof.
  induction s as [|c s (w & IH)]; [exists EmptyString; reflexivity|].
  simpl. destruct (is_space c && is_empty (trimEnd s)).
  - exists (String c s). reflexivity.
  - exists w. simpl. now rewrite <- IH.
Qed.

Lemma occurs_trim (p s : string) :
  occurs p s = false -> occurs p (trim s) = false.
Proof.
  intros H. unfold trim.
  destruct (occurs p (trimEnd (trimStart s))) eqn:E; [|reflexivity].
  destruct (trimEnd_prefix (trimStart s)) as (w & Hw).
  destruct (trimStart_suffix s) as (v & Hv).
  apply (occurs_app_l p _ w) in E. rewrite <- Hw in E.
  apply (occurs_app_r p v) in E. rewrite <- Hv in E. congruence.
Qed.

Lemma trimStart_idem (s : string) : trimStart (trimStart s) = trimStart s.
Proof.
  induction s as [|c s IH]; [reflexivity|].
  simpl. destruct (is_space c) eqn:E; [exact IH|].
  simpl. now rewrite E.
Qed.

Lemma trimEnd_idem (s : string) : trimEnd (trimEnd s) = trimEnd s.
Proof.
  induction s as [|c s IH]; [reflexivity|].
  simpl. destruct (is_space c && is_empty (trimEnd s)) eqn:E;
    [reflexivity|].
  simpl. now rewrite IH, E.
Qed.

Lemma trimStart_trimEnd (u : string) :
  trimStart u = u -> trimStart (trimEnd u) = trimEnd u.
Proof.
  destruct u as [|c t]; [reflexivity|]. simpl.
  destruct (is_space c) eqn:E.
  - intros H. exfalso. pose proof (trimStart_length t) as L.
    rewrite H in L. simpl in L. lia.
  - intros _. simpl. now rewrite E.
Qed.

Lemma trim_idem (s : string) : trim (trim s) = trim s.
Proof.
  unfold trim.
  rewrite (trimStart_trimEnd (trimStart s) (trimStart_idem s)).
  apply trimEnd_idem.
Qed.

Lemma terminator_not_slash (c : ascii) :
  is_line_terminator c = true -> Ascii.eqb slash c = false.
Proof.
  destruct (Ascii.eqb_spec slash c) as [<-|]; [discriminate|reflexivity].
Qed.

Lemma comments_head (t : string) :
  starts_with_slash t = false ->
  starts_with_slash (replace_comments_from false t) = false.
Proof.
  destruct t as [|c t]; [reflexivity|]. intros H.
  change (Ascii.eqb slash c = false) in H.
  rewrite comments_cons; [exact H|].
  rewrite strip_slashes. destruct t; rewrite ?H; reflexivity.
Qed.

Lemma comments_gone (s : string) :
  occurs "//" (replace_comments_from false s) = false /\
  occurs "//" (replace_comments_from true s) = false.
Proof.
  induction s as [|c t [IHf IHt]]; [split; reflexivity|]. split.
  - destruct (strip_prefix "//" (String c t)) as [r|] eqn:E.
    + unfold replace_comments_from; fold replace_comments_from.
      rewrite E. exact IHt.
    + rewrite (comments_cons c t E), occurs_step, IHf.
      rewrite strip_slashes in E |- *.
      destruct (replace_comments_from false t) as [|b r] eqn:Er;
        [reflexivity|].
      destruct (Ascii.eqb slash c) eqn:Ec; [|reflexivity].
      assert (Hs : starts_with_slash t = false).
      { destruct t as [|d t']; [reflexivity|].
        change (Ascii.eqb slash d = false). cbv iota in E.
        destruct (Ascii.eqb slash d); [discriminate E|reflexivity]. }
      pose proof (comments_head t Hs) as Hh. rewrite Er in Hh.
      change (Ascii.eqb slash b = false) in Hh. rewrite Hh. reflexivity.
  - unfold replace_comments_from; fold replace_comments_from.
    destruct (is_line_terminator c) eqn:El; [|exact IHt].
    rewrite occurs_step, IHf, strip_slashes.
    rewrite (terminator_not_slash c El).
    destruct (replace_comments_from false t); reflexivity.
Qed.

(** X19.  Whatever the answer, the sanitized text holds no [//] and has
    no white space at either end. *)
Theorem sanitized_has_no_comment_mark (s : string) :
  occurs "//" (sanitizeAIResponse s) = false /\
  trim (sanitizeAIResponse s) = sanitizeAIResponse s.
Proof.
  unfold sanitizeAIResponse. split.
  - apply occurs_trim. apply comments_gone.
  - apply trim_idem.
Qed.

(** X20.  An answer that holds neither three backticks in a row nor
    [//] comes out of the sanitizer trimmed and otherwise unchanged. *)
Theorem sanitize_passes_plain_text (s : string) :
  occurs fence s = false ->
  occurs "//" s = false ->
  sanitizeAIResponse s = trim s.
Proof.
  intros Hf Hc. unfold sanitizeAIResponse.
  rewrite (no_fence_open s Hf), (no_fence_close s Hf).
  rewrite (replace_comments_clean (trim s) (occurs_trim "//" s Hc)).
  apply trim_idem.
Qed.

Lemma sanitize_passes_plain_text_witness :
  sanitizeAIResponse (" " ++ json_query "x" ++ String LF EmptyString)
  = json_query "x".
Proof.
  exact (sanitize_passes_plain_text
           (" " ++ json_query "x" ++ String LF EmptyString) eq_refl eq_refl).
Defined.

(** ** The title endpoint *)

(** X21.  The title endpoint asks the catalog only when the type is
    exactly [movie] or [tv] and the id is not empty, and then once, at
    the detail address; in every other case it answers 400 without a
    request.  When it asks, it answers 200 with the catalog's data,
    the catalog's own status when the catalog refuses with a body, and
    500 when the catalog cannot be reached. *)
Theorem title_asks_for_media_kinds_only
  (get : trace -> string -> Title.reply) (key type id : string) (h : trace) :
  let r := Title.title get key type id h in
  ((type = "movie" \/ type = "tv") /\ id <> EmptyString ->
   snd r = Get (Title.title_url key type id) :: h /\
   match get h (Title.title_url key type id) with
   | Title.Served data => fst r = Title.Sent 200 data
   | Title.Refused status data =>
       forall message, field data "status_message" = Some message ->
                       fst r = Title.Sent status (Title.error_body message)
   | Title.Unreachable => exists body, fst r = Title.Sent 500 body
   end)
  /\
  (~ ((type = "movie" \/ type = "tv") /\ id <> EmptyString) ->
   snd r = h /\ exists body, fst r = Title.Sent 400 body).
Proof.
  cbv zeta. split.
  - intros [Ht Hi].
    assert (Ei : is_empty id = false) by (destruct id; [congruence|reflexivity]).
    assert (Et : is_empty type = false) by (destruct Ht; subst; reflexivity).
    assert (Ek : negb (String.eqb type "movie" || String.eqb type "tv") = false)
      by (destruct Ht; subst; reflexivity).
    assert (R : Title.title get key type id h
                = (match get h (Title.title_url key type id) with
                   | Title.Served data => Title.Sent 200 data
                   | Title.Refused status data =>
                       match field data "status_message" with
                       | Some message =>
                           Title.Sent status (Title.error_body message)
                       | None => Title.Thrown
                       end
                   | Title.Unreachable =>
                       Title.Sent 500
                         (Title.error_body
                            (VStr ("Failed to fetch " ++ type ++ " details.")))
                   end,
                   Get (Title.title_url key type id) :: h)).
    { unfold Title.title. rewrite Ei, Et, Ek. reflexivity. }
    rewrite R. cbn [fst snd]. split; [reflexivity|].
    destruct (get h (Title.title_url key type id)) as [d|s d|].
    + reflexivity.
    + intros m ->. reflexivity.
    + eauto.
  - intros Hn. unfold Title.title.
    destruct (is_empty id || is_empty type) eqn:E; [unfold ret; simpl; eauto|].
    destruct (String.eqb_spec type "movie") as [Hm|Hm].
    + exfalso. apply Hn. split; [now left|].
      intros ->. discriminate E.
    + destruct (String.eqb_spec type "tv") as [Hv|Hv].
      * exfalso. apply Hn. split; [now right|].
        intros ->. discriminate E.
      * unfold ret; simpl; eauto.
Qed.

Lemma title_asks_for_media_kinds_only_witness :
  snd (Title.title (fun _ _ => Title.Refused 404
                      (VObj [("status_message", VStr "not found")]))
         "KEY" "tv" "1399" [])
  = [Get "https://api.themoviedb.org/3/tv/1399?api_key=KEY&append_to_response=credits"] /\
  snd (Title.title (fun _ _ => Title.Unreachable) "KEY" "Movie" "550" []) = [].
Proof.
  split.
  - apply (proj1 (title_asks_for_media_kinds_only
                    (fun _ _ => Title.Refused 404
                       (VObj [("status_message", VStr "not found")]))
                    "KEY" "tv" "1399" [])).
    split; [now right|discriminate].
  - apply (proj2 (title_asks_for_media_kinds_only
                    (fun _ _ => Title.Unreachable) "KEY" "Movie" "550" [])).
    intros [[H|H] _]; discriminate H.
Defined.

(** ** The chat client *)

Lemma last_app_one {A : Type} (l : list A) (x d : A) :
  last (l ++ [x]) d = x.
Proof.
  induction l as [|y l IH]; [reflexivity|].
  simpl. destruct (l ++ [x])%list eqn:E; [|exact IH].
  destruct l; discriminate E.
Qed.

Lemma json_messages (l : list Client.Message) :
  Forall is_message (map Client.to_json l).
Proof. induction l; constructor; [exact I|assumption]. Qed.

(** X22.  What [handleSend] posts for an input that is not blank is
    never rejected by the handler's validation and never makes it
    raise before its [try]: the message that the handler classifies is
    the input as typed, and the status is 200, or 500 with the fixed
    error text. *)
Theorem client_request_is_served
  (W : World) (g : genres) (h : trace)
  (messages posted shown : list Client.Message) (userInput : string) :
  Client.handleSend messages userInput = Some (posted, shown) ->
  let r := respond W g (Some (map Client.to_json posted)) h in
  posted = (messages ++ [Client.user_message userInput])%list /\
  last_content (map Client.to_json posted) = Some (VStr userInput) /\
  (status_of (fst r) = Some 200%Z \/
   fst r = Response 500 (ErrorBody "Failed to complete the response.")).
Proof.
  unfold Client.handleSend.
  destruct (is_empty (trim userInput)); [discriminate|].
  intros E. inversion E; subst posted shown. clear E. cbv zeta.
  assert (Hl : map Client.to_json (messages ++ [Client.user_message userInput])
               <> []).
  { rewrite map_app. intros H. apply app_eq_nil in H. destruct H as [_ H].
    discriminate H. }
  assert (Hc : last_content
                 (map Client.to_json (messages ++ [Client.user_message userInput]))
               = Some (VStr userInput)).
  { unfold last_content. rewrite map_app.
    change (map Client.to_json [Client.user_message userInput])
      with [Client.to_json (Client.user_message userInput)].
    rewrite last_app_one. reflexivity. }
  split; [reflexivity|]. split; [exact Hc|].
  remember (respond W g
              (Some (map Client.to_json
                       (messages ++ [Client.user_message userInput]))) h)
    as r eqn:Er.
  rewrite (respond_nonempty W g _ h Hl), Hc in Er.
  destruct (classifyRequest W (VStr userInput) h) as [[| |] h1].
  - destruct (generateTMDBQuery W g (VStr userInput) Movie h1) as [q h2].
    destruct (fetchFromTMDB W q Movie h2) as [[[res q']|] h3].
    + destruct (refineResultsWithAI W (VStr userInput) res Movie h3).
      subst r. left; reflexivity.
    + subst r. right; reflexivity.
  - destruct (generateTMDBQuery W g (VStr userInput) Tv h1) as [q h2].
    destruct (fetchFromTMDB W q Tv h2) as [[[res q']|] h3].
    + destruct (refineResultsWithAI W (VStr userInput) res Tv h3).
      subst r. left; reflexivity.
    + subst r. right; reflexivity.
  - destruct (generateNormalResponse W _ h1). subst r. left; reflexivity.
Qed.

Lemma client_request_is_served_witness :
  last_content (map Client.to_json [Client.user_message " a heist film "])
  = Some (VStr " a heist film ").
Proof.
  exact (proj1 (proj2 (client_request_is_served Demo.catalog Demo.cached []
                         [] [Client.user_message " a heist film "]
                         [Client.user_message " a heist film ";
                          Client.typingIndicator]
                         " a heist film " eq_refl))).
Defined.

(** X23.  An exchange that no other update interrupts adds two messages
    to the transcript, the user's and one from the assistant in place
    of the placeholder; the assistant's text is never empty, and cards
    are attached only when there is at least one. *)
Theorem exchange_adds_two_messages
  (messages posted shown : list Client.Message) (userInput : string)
  (status : Z) (body : payload) :
  Client.handleSend messages userInput = Some (posted, shown) ->
  exists reply,
    Client.receive status body shown
    = (messages ++ [Client.user_message userInput; reply])%list /\
    Client.role_of reply = Client.Assistant /\
    Client.content reply <> EmptyString /\
    Client.recs reply <> Some [].
Proof.
  unfold Client.handleSend.
  destruct (is_empty (trim userInput)); [discriminate|].
  intros E. inversion E; subst posted shown. clear E.
  unfold Client.receive. rewrite removelast_last.
  eexists. split; [rewrite <- app_assoc; reflexivity|].
  destruct ((200 <=? status) && (status <? 300))%Z.
  - split; [reflexivity|]. split.
    + simpl. unfold Client.response_text.
      destruct (is_empty _) eqn:Ee; [discriminate|].
      intros H. rewrite H in Ee. discriminate Ee.
    + simpl. unfold Client.response_recs.
      destruct body as [e|r [| | | | |[|x l]|] q rt|r]; discriminate.
  - split; [reflexivity|]. split; discriminate.
Qed.

Lemma exchange_adds_two_messages_witness :
  exists reply,
    Client.receive 200 (Plain EmptyString)
      [Client.user_message "hi"; Client.typingIndicator]
    = ([] ++ [Client.user_message "hi"; reply])%list /\
    Client.role_of reply = Client.Assistant /\
    Client.content reply <> EmptyString /\
    Client.recs reply <> Some [].
Proof.
  exact (exchange_adds_two_messages [] [Client.user_message "hi"]
           [Client.user_message "hi"; Client.typingIndicator] "hi"
           200 (Plain EmptyString) eq_refl).
Defined.

(** ** Bold spans *)

Example parse_ex :
  Bold.parseContent "This is **bold** text"
  = [Bold.Text "This is "; Bold.Strong "bold"; Bold.Text " text"] /\
  Bold.parseContent "***a** b" = [Bold.Text EmptyString; Bold.Strong "*a"; Bold.Text " b"] /\
  Bold.parseContent "2 ** 3" = [Bold.Text "2 ** 3"] /\
  Bold.parseContent "**" = [Bold.Strong EmptyString] /\
  Bold.parseContent EmptyString = [Bold.Text EmptyString].
Proof. repeat split; reflexivity. Qed.

Lemma split_from_plain (n : nat) (text s : string) :
  occurs Bold.marker s = false -> Bold.split_from n text s = [text ++ s].
Proof.
  revert text s. induction n as [|n IH]; intros text s H; [reflexivity|].
  destruct s as [|c t]; [simpl; now rewrite append_empty_r|].
  apply occurs_cons in H. destruct H as [Hp Ho].
  cbn [Bold.split_from]. rewrite Hp, (IH _ t Ho).
  now rewrite append_assoc.
Qed.

Lemma starts_plain (s : string) :
  occurs Bold.marker s = false -> Bold.starts_with_marker s = false.
Proof.
  unfold Bold.starts_with_marker. destruct s as [|c t]; [reflexivity|].
  intros H. apply occurs_cons in H. destruct H as [-> _]. reflexivity.
Qed.

(** X24.  A message that holds no two asterisks in a row is rendered
    as one piece of plain text, the message itself. *)
Theorem plain_message_is_unchanged (content : string) :
  occurs Bold.marker content = false ->
  Bold.parseContent content = [Bold.Text content].
Proof.
  intros H. unfold Bold.parseContent, Bold.split_bold.
  rewrite (split_from_plain _ EmptyString content H).
  cbn [map append]. unfold Bold.render.
  now rewrite (starts_plain content H).
Qed.

Lemma plain_message_is_unchanged_witness :
  Bold.parseContent "rated 5 * out of 5" = [Bold.Text "rated 5 * out of 5"].
Proof.
  exact (plain_message_is_unchanged "rated 5 * out of 5" eq_refl).
Defined.

Lemma closing_splits (r inner rest : string) :
  Bold.closing r = Some (inner, rest) ->
  r = inner ++ Bold.marker ++ rest.
Proof.
  revert inner. induction r as [|c t IH]; intros inner.
  - cbn [Bold.closing strip_prefix Bold.marker]. discriminate.
  - unfold Bold.closing; fold Bold.closing.
    destruct (strip_prefix Bold.marker (String c t)) as [r'|] eqn:E.
    + intros H. inversion H; subst.
      unfold Bold.marker in E. cbn [strip_prefix] in E.
      destruct (Ascii.eqb_spec "*" c) as [<-|]; [|discriminate].
      destruct t as [|d t']; [discriminate|].
      destruct (Ascii.eqb_spec "*" d) as [<-|]; [|discriminate].
      inversion E. reflexivity.
    + destruct (is_line_terminator c); [discriminate|].
      destruct (Bold.closing t) as [[i r']|]; [|discriminate].
      intros H. inversion H; subst.
      now rewrite (IH i eq_refl).
Qed.

Lemma fold_append (a b : string) (l : list string) :
  fold_right append EmptyString ((a ++ b) :: l)
  = a ++ fold_right append EmptyString (b :: l).
Proof. simpl. now rewrite append_assoc. Qed.

Lemma split_from_lossless (n : nat) (text s : string) :
  fold_right append EmptyString (Bold.split_from n text s) = text ++ s.
Proof.
  revert text s. induction n as [|n IH]; intros text s.
  - simpl. now rewrite append_empty_r.
  - destruct s as [|c t]; [simpl; now rewrite !append_empty_r|].
    assert (Hskip :
      fold_right append EmptyString
        (Bold.split_from n (text ++ String c EmptyString) t)
      = text ++ String c t).
    { rewrite IH. now rewrite append_assoc. }
    cbn [Bold.split_from].
    destruct (strip_prefix Bold.marker (String c t)) as [r|] eqn:E;
      [|exact Hskip].
    destruct (Bold.closing r) as [[inner rest]|] eqn:C; [|exact Hskip].
    cbn [fold_right]. rewrite IH. cbn [append].
    apply closing_splits in C. subst r.
    unfold Bold.marker in E. cbn [strip_prefix] in E.
    destruct (Ascii.eqb_spec "*" c) as [<-|]; [|discriminate].
    destruct t as [|d t']; [discriminate|].
    destruct (Ascii.eqb_spec "*" d) as [<-|]; [|discriminate].
    inversion E; subst t'. f_equal.
    unfold Bold.marker. cbn [append]. f_equal. f_equal.
    now rewrite !append_assoc.
Qed.

(** X25.  The parts into which a message is split, put end to end, are
    the message: the split loses nothing and adds nothing. *)
Theorem split_bold_lossless (content : string) :
  fold_right append EmptyString (Bold.split_bold content) = content.
Proof. unfold Bold.split_bold. apply split_from_lossless. Qed.

Lemma lacks_star_plain (s : string) :
  lacks Bold.star s = true -> occurs Bold.marker s = false.
Proof.
  induction s as [|c t IH]; [reflexivity|].
  cbn [lacks]. intros H. apply andb_prop in H. destruct H as [Hc Ht].
  rewrite occurs_step, (IH Ht).
  unfold Bold.marker. cbn [strip_prefix].
  apply negb_true_iff in Hc. rewrite Ascii.eqb_sym in Hc.
  unfold Bold.star in Hc. rewrite Hc. reflexivity.
Qed.

Lemma split_from_through (a : string) :
  lacks Bold.star a = true ->
  forall n text s,
    Bold.split_from (String.length a + n) text (a ++ s)
    = Bold.split_from n (text ++ a) s.
Proof.
  induction a as [|c a IH]; intros H n text s.
  - simpl. now rewrite append_empty_r.
  - cbn [lacks] in H. apply andb_prop in H. destruct H as [Hc Ha].
    change (String.length (String c a) + n)%nat
      with (S (String.length a + n)).
    change (String c a ++ s) with (String c (a ++ s)).
    cbn [Bold.split_from].
    assert (E : strip_prefix Bold.marker (String c (a ++ s)) = None).
    { unfold Bold.marker. cbn [strip_prefix].
      apply negb_true_iff in Hc. rewrite Ascii.eqb_sym in Hc.
      unfold Bold.star in Hc. rewrite Hc. reflexivity. }
    rewrite E, (IH Ha). now rewrite append_assoc.
Qed.

Lemma closing_span (x b : string) :
  lacks Bold.star x = true -> no_line_terminator x = true ->
  Bold.closing (x ++ Bold.marker ++ b) = Some (x, b).
Proof.
  induction x as [|c x IH]; intros Hs Hl; [reflexivity|].
  cbn [lacks] in Hs. apply andb_prop in Hs. destruct Hs as [Hc Hx].
  cbn [no_line_terminator] in Hl. apply andb_prop in Hl.
  destruct Hl as [Hn Hl]. apply negb_true_iff in Hn.
  change (String c x ++ Bold.marker ++ b)
    with (String c (x ++ Bold.marker ++ b)).
  unfold Bold.closing; fold Bold.closing.
  assert (E : strip_prefix Bold.marker (String c (x ++ Bold.marker ++ b)) = None).
  { unfold Bold.marker. cbn [strip_prefix].
    apply negb_true_iff in Hc. rewrite Ascii.eqb_sym in Hc.
    unfold Bold.star in Hc. rewrite Hc. reflexivity. }
  rewrite E, Hn, (IH Hx Hl). reflexivity.
Qed.

Lemma ends_with_marker_app (s : string) :
  Bold.ends_with_marker (s ++ Bold.marker) = true.
Proof.
  induction s as [|c s IH]; [reflexivity|].
  change (String c s ++ Bold.marker) with (String c (s ++ Bold.marker)).
  destruct (s ++ Bold.marker)%string as [|a [|b r]] eqn:E.
  - destruct s; discriminate E.
  - destruct s as [|? [|? ?]]; discriminate E.
  - exact IH.
Qed.

Lemma substring_prefix (x y : string) :
  substring 0 (String.length x) (x ++ y) = x.
Proof. induction x as [|c x IH]; simpl; [now destruct y|now rewrite IH]. Qed.

Lemma length_append (a b : string) :
  String.length (a ++ b) = (String.length a + String.length b)%nat.
Proof. induction a as [|c a IH]; simpl; [reflexivity|now rewrite IH]. Qed.

(** X26.  A span between two markers, with no asterisk and no line
    terminator inside and no asterisk around, is rendered in bold
    without its markers, between the text before it and the text after
    it, both unchanged. *)
Theorem bold_span_is_rendered (a x b : string) :
  lacks Bold.star a = true ->
  lacks Bold.star x = true ->
  no_line_terminator x = true ->
  lacks Bold.star b = true ->
  Bold.parseContent (a ++ Bold.marker ++ x ++ Bold.marker ++ b)
  = [Bold.Text a; Bold.Strong x; Bold.Text b].
Proof.
  intros Ha Hx Hl Hb.
  unfold Bold.parseContent, Bold.split_bold.
  rewrite length_append.
  rewrite (split_from_through a Ha). cbn [append].
  change (Bold.split_from
            (String.length (Bold.marker ++ x ++ Bold.marker ++ b))
            a (Bold.marker ++ x ++ Bold.marker ++ b))
    with (match Bold.closing (x ++ Bold.marker ++ b) with
          | Some (inner, rest) =>
              a :: (Bold.marker ++ inner ++ Bold.marker)
                :: Bold.split_from
                     (S (String.length (x ++ Bold.marker ++ b)))
                     EmptyString rest
          | None =>
              Bold.split_from (S (String.length (x ++ Bold.marker ++ b)))
                (a ++ String "*" EmptyString)
                (String "*" (x ++ Bold.marker ++ b))
          end).
  rewrite (closing_span x b Hx Hl).
  rewrite (split_from_plain _ EmptyString b (lacks_star_plain b Hb)).
  cbn [map append]. unfold Bold.render.
  rewrite (starts_plain a (lacks_star_plain a Ha)).
  rewrite (starts_plain b (lacks_star_plain b Hb)).
  cbn [andb].
  replace (Bold.marker ++ x ++ Bold.marker)
    with ((Bold.marker ++ x) ++ Bold.marker) by (now rewrite append_assoc).
  rewrite ends_with_marker_app.
  change (Bold.starts_with_marker ((Bold.marker ++ x) ++ Bold.marker))
    with true.
  cbn [andb]. f_equal. f_equal. f_equal.
  unfold Bold.slice_2. rewrite !length_append.
  change (String.length Bold.marker) with 2%nat.
  replace (2 + String.length x + 2 - 4)%nat with (String.length x) by lia.
  change (substring 2 (String.length x) ((Bold.marker ++ x) ++ Bold.marker))
    with (substring 0 (String.length x) (x ++ Bold.marker)).
  apply substring_prefix.
Qed.

Lemma bold_span_is_rendered_witness :
  Bold.parseContent "Try **Dark (2017)**, a thriller."
  = [Bold.Text "Try "; Bold.Strong "Dark (2017)"; Bold.Text ", a thriller."].
Proof.
  exact (bold_span_is_rendered "Try " "Dark (2017)" ", a thriller."
           eq_refl eq_refl eq_refl eq_refl).
Defined.

Lemma closing_shorter (r inner rest : string) :
  Bold.closing r = Some (inner, rest) ->
  (String.length rest + 2 <= String.length r)%nat.
Proof.
  intros H. apply closing_splits in H. subst r.
  rewrite !length_append. change (String.length Bold.marker) with 2%nat.
  lia.
Qed.

(** One step per character is enough: with at least as much fuel as
    the text is long, the parts do not depend on the fuel. *)
Lemma split_from_fuel (n : nat) :
  forall (m : nat) (text s : string),
    (String.length s <= n)%nat -> (String.length s <= m)%nat ->
    Bold.split_from n text s = Bold.split_from m text s.
Proof.
  induction n as [|n IH]; intros m text s Hn Hm.
  - destruct s as [|c t]; [|simpl in Hn; lia].
    destruct m; simpl; now rewrite ?append_empty_r.
  - destruct s as [|c t].
    + destruct m; simpl; now rewrite ?append_empty_r.
    + destruct m as [|m]; [simpl in Hm; lia|].
      cbn [String.length] in Hn, Hm.
      cbn [Bold.split_from].
      assert (Hskip :
        Bold.split_from n (text ++ String c EmptyString) t
        = Bold.split_from m (text ++ String c EmptyString) t)
        by (apply IH; lia).
      destruct (strip_prefix Bold.marker (String c t)) as [r|] eqn:E;
        [|exact Hskip].
      destruct (Bold.closing r) as [[inner rest]|] eqn:C; [|exact Hskip].
      apply closing_shorter in C.
      unfold Bold.marker in E. cbn [strip_prefix] in E.
      destruct (Ascii.eqb "*" c); [|discriminate].
      destruct t as [|d t']; [discriminate|].
      destruct (Ascii.eqb "*" d); [|discriminate].
      inversion E; subst t'. cbn [String.length] in Hn, Hm.
      do 2 f_equal. apply IH; lia.
Qed.
